(** * ChatterBox: the chat store and its socket handlers

    A shallow embedding of the state transitions of [ChatterBoxApp]
    (the page component holding the chat list, the selection, the user list
    and the socket handlers), followed by the properties of the optimistic
    message synchronisation that the specification states about them.

    The component state is a record; every socket handler, acknowledgement
    callback and user action is a function from state to state.  Events the
    client emits to the server are appended to an outbox kept in the state,
    so that statements can count them.

    The effect of the component registers the socket handlers only while
    [socketRef.current] is null, that is once, after the first render.  What
    a handler reads of [selectedChatId] and [currentUser] outside of a state
    updater is therefore the value of that render ([firstRender]): the
    handlers of [receive_message] and [initial_data] take these values as a
    parameter, and [on_receive_message] and [on_initial_data] are the
    handlers as registered.  The user actions and the acknowledgement
    callbacks are made anew at every render and read the current state.
    The cleanup of the effect takes the handlers off the socket as soon as
    [selectedChatId] or [currentUser] changes; whether a handler is still
    registered is not part of the state: a handler is applied when its
    event is delivered to it.  The run of the effect that follows is part
    of [on_initial_data], which always triggers it; the other functions are
    the handlers and callbacks themselves.  [user_status_update] compares
    the id it receives with the id of [currentUser], which no update
    changes; it is given the user of the state. *)

From Stdlib Require Import ZArith Bool.
From stdpp Require Import base option list strings gmap.
From stdpp Require Import pretty sorting.

(** [a === b] on strings. *)
Infix "===" := String.eqb (at level 70, no associativity).

(** ** Data model (the declarations of [@/types]) *)

Module User.
Record t := mk {
  id : string;
  name : string;
  avatarUrl : string;
  isOnline : bool;
}.

Definition with_isOnline (b : bool) (u : t) : t :=
  mk (id u) (name u) (avatarUrl u) b.
End User.

Inductive MessageType := text | image | video | call_start | call_end.

(** The status of a message.  [@/types] declares
    [status?: 'sent' | 'delivered' | 'read']: these three values are the
    ones the code writes, and a message without the field has [None].
    [pending] and [failed] are the two further values of the
    specification's data model; no code path produces them, and they are
    here only so that what the specification says of them can be stated. *)
Inductive Status := pending | sent | delivered | read | failed.

Module Message.
Record t := mk {
  id : string;
  sender : User.t;
  content : string;
  timestamp : Z;                (* milliseconds, as [getTime()] gives *)
  type : MessageType;
  status : option Status;       (* [None] is JavaScript's [undefined] *)
  error : option string;
}.

Definition with_id (i : string) (m : t) : t :=
  mk i (sender m) (content m) (timestamp m) (type m) (status m) (error m).
Definition with_status (s : option Status) (m : t) : t :=
  mk (id m) (sender m) (content m) (timestamp m) (type m) s (error m).
Definition with_error (e : option string) (m : t) : t :=
  mk (id m) (sender m) (content m) (timestamp m) (type m) (status m) e.
End Message.

Module Chat.
Record t := mk {
  id : string;
  isGroup : bool;
  name : option string;
  participants : list User.t;
  messages : list Message.t;
  lastMessage : option Message.t;
  unreadCount : option nat;
}.

Definition with_messages (ms : list Message.t) (c : t) : t :=
  mk (id c) (isGroup c) (name c) (participants c) ms (lastMessage c) (unreadCount c).
Definition with_lastMessage (lm : option Message.t) (c : t) : t :=
  mk (id c) (isGroup c) (name c) (participants c) (messages c) lm (unreadCount c).
Definition with_unreadCount (n : option nat) (c : t) : t :=
  mk (id c) (isGroup c) (name c) (participants c) (messages c) (lastMessage c) n.
End Chat.

(** The order the specification puts on the statuses a message goes
    through; [failed] is outside of it. *)
Definition status_rank (s : Status) : nat :=
  match s with
  | pending => 0
  | sent => 1
  | delivered => 2
  | read => 3
  | failed => 4
  end.

(** [old] to [new] is a forward step: the same or a later status, or the
    diversion to [failed]. *)
Definition status_forward (old new : Status) : bool :=
  match new with
  | failed => true
  | _ => match old with
         | failed => false
         | _ => Nat.leb (status_rank old) (status_rank new)
         end
  end.

(** ** JavaScript helpers *)

(** Truthiness of an optional string: [undefined] and the empty string are
    falsy. *)
Definition truthy (s : option string) : bool :=
  match s with
  | Some s => negb (s === "")
  | None => false
  end.

(** [a || d] on an optional string. *)
Definition or_else (a : option string) (d : string) : string :=
  match a with
  | Some s => if s === "" then d else s
  | None => d
  end.

(** [x === sel] for a string [x] and a [string | null]. *)
Definition eq_sel (x : string) (sel : option string) : bool :=
  match sel with
  | Some s => x === s
  | None => false
  end.

(** The property names every plain object inherits from
    [Object.prototype]; each of them holds a function or an object. *)
Definition inheritedKeys : list string :=
  [ "constructor"; "hasOwnProperty"; "isPrototypeOf"; "propertyIsEnumerable";
    "toLocaleString"; "toString"; "valueOf"; "__proto__";
    "__defineGetter__"; "__defineSetter__";
    "__lookupGetter__"; "__lookupSetter__" ].

(** [!!o[k]] for a [Record<string, string>] received from the server: the
    string under the key [k] when [o] has one of its own, and what the
    prototype has under that name otherwise. *)
Definition truthyAt (o : gmap string string) (k : string) : bool :=
  match o !! k with
  | Some v => negb (v === "")
  | None => existsb (String.eqb k) inheritedKeys
  end.

(** [Array.prototype.findIndex]; [None] stands for [-1]. *)
Fixpoint findIndex {A} (p : A -> bool) (l : list A) : option nat :=
  match l with
  | [] => None
  | x :: l => if p x then Some 0 else S <$> findIndex p l
  end.

(** [[...l.slice(0, i), ...l.slice(i + 1)]] *)
Definition without_index {A} (i : nat) (l : list A) : list A :=
  take i l ++ drop (S i) l.

(** ** Events emitted to the server *)

Inductive ClientEvent :=
| request_initial_data
| mark_as_read (chatId userId : string)
| send_message (chatId : string) (message : Message.t).

(** ** Component state *)

Inductive View := view_chats | view_users.

Record App := mkApp {
  currentUser : option User.t;
  chats : list Chat.t;
  selectedChatId : option string;
  availableUsers : list User.t;
  view : View;
  isLoadingData : bool;
  isNewGroupModalOpen : bool;
  socket : bool;                  (* [socketRef.current] is not null *)
  emitted : list ClientEvent;     (* oldest first *)
  toasts : list string;           (* titles, oldest first *)
}.

Definition setCurrentUser (f : option User.t -> option User.t) (a : App) : App :=
  mkApp (f (currentUser a)) (chats a) (selectedChatId a) (availableUsers a) (view a)
        (isLoadingData a) (isNewGroupModalOpen a) (socket a) (emitted a) (toasts a).
Definition setChats (f : list Chat.t -> list Chat.t) (a : App) : App :=
  mkApp (currentUser a) (f (chats a)) (selectedChatId a) (availableUsers a) (view a)
        (isLoadingData a) (isNewGroupModalOpen a) (socket a) (emitted a) (toasts a).
Definition setSelectedChatId (s : option string) (a : App) : App :=
  mkApp (currentUser a) (chats a) s (availableUsers a) (view a)
        (isLoadingData a) (isNewGroupModalOpen a) (socket a) (emitted a) (toasts a).
Definition setAvailableUsers (us : list User.t) (a : App) : App :=
  mkApp (currentUser a) (chats a) (selectedChatId a) us (view a)
        (isLoadingData a) (isNewGroupModalOpen a) (socket a) (emitted a) (toasts a).
Definition setView (v : View) (a : App) : App :=
  mkApp (currentUser a) (chats a) (selectedChatId a) (availableUsers a) v
        (isLoadingData a) (isNewGroupModalOpen a) (socket a) (emitted a) (toasts a).
Definition setIsLoadingData (b : bool) (a : App) : App :=
  mkApp (currentUser a) (chats a) (selectedChatId a) (availableUsers a) (view a)
        b (isNewGroupModalOpen a) (socket a) (emitted a) (toasts a).
Definition setIsNewGroupModalOpen (b : bool) (a : App) : App :=
  mkApp (currentUser a) (chats a) (selectedChatId a) (availableUsers a) (view a)
        (isLoadingData a) b (socket a) (emitted a) (toasts a).
(** [socket.emit(...)] on a socket that is there; the callers that go
    through [socketRef.current] test [socket] first. *)
Definition emit (e : ClientEvent) (a : App) : App :=
  mkApp (currentUser a) (chats a) (selectedChatId a) (availableUsers a) (view a)
        (isLoadingData a) (isNewGroupModalOpen a) (socket a)
        (emitted a ++ [e]) (toasts a).
Definition toast (title : string) (a : App) : App :=
  mkApp (currentUser a) (chats a) (selectedChatId a) (availableUsers a) (view a)
        (isLoadingData a) (isNewGroupModalOpen a) (socket a) (emitted a) (toasts a ++ [title]).

Definition initialAvailableUsers : list User.t :=
  [ User.mk "user1" "Alice" "https://picsum.photos/seed/alice/100/100" false;
    User.mk "user2" "Bob" "https://picsum.photos/seed/bob/100/100" false;
    User.mk "user3" "Charlie" "https://picsum.photos/seed/charlie/100/100" false;
    User.mk "user4" "Diana" "https://picsum.photos/seed/diana/100/100" false ].

(** ** What a socket handler sees of the component

    The values of [selectedChatId] and [currentUser] in the render whose
    effect registers the handlers. *)

Module Closure.
Record t := mk {
  selectedChatId : option string;
  currentUser : option User.t;
}.
End Closure.

(** The effect registers the handlers while [socketRef.current] is null:
    after the first render, in which [selectedChatId] is [null] and
    [currentUser] is the user of the props ([useState(initialUser)]). *)
Definition firstRender (initialUser : User.t) : Closure.t :=
  Closure.mk None (Some initialUser).

(** The effect runs again after a render in which one of its dependencies
    has changed: [selectedChatId], or [currentUser], an object compared by
    identity.  Its cleanup takes the handlers off the socket.  Its body then
    finds [socketRef.current] set and an id in [initialUser] and in
    [currentUser], as they are whenever a handler is registered: it
    registers nothing and comes down to
    [setCurrentUser(initialUser); setIsLoadingData(true)]. *)
Definition rerunEffect (initialUser : User.t) (a : App) : App :=
  setIsLoadingData true (setCurrentUser (fun _ => Some initialUser) a).

(** ** Payloads received from the server *)

Module InitialData.
Record t := mk {
  chats : list Chat.t;
  onlineUsers : gmap string string;   (* [Record<string, string>], own keys *)
  allUsers : list User.t;
}.
End InitialData.

Module MessageAck.
Record t := mk {
  success : bool;
  messageId : option string;
  error : option string;
}.
End MessageAck.

Module GroupAck.
Record t := mk {
  success : bool;
  newChat : option Chat.t;
  error : option string;
}.
End GroupAck.

(** ** Connection lifecycle *)

(** [socket.on('disconnect', reason => ...)] *)
Definition on_disconnect (reason : string) (a : App) : App :=
  if negb (reason === "io client disconnect") then
    setSelectedChatId None
      (setAvailableUsers initialAvailableUsers
        (setChats (fun _ => [])
          (setIsLoadingData false (toast "Connection Lost" a))))
  else a.

(** The key [initial_data] sorts the chats by: the time of the last
    message, 0 without one. *)
Definition recency (c : Chat.t) : Z :=
  match Chat.lastMessage c with
  | Some m => Message.timestamp m
  | None => 0%Z
  end.

Fixpoint insertByRecency (c : Chat.t) (l : list Chat.t) : list Chat.t :=
  match l with
  | [] => [c]
  | d :: l' => if Z.leb (recency d) (recency c) then c :: l
               else d :: insertByRecency c l'
  end.

(** [serverChats.sort((a, b) => timeB - timeA)]: most recent first, chats
    of equal time in the order received (the sort is stable). *)
Definition sortByRecency (l : list Chat.t) : list Chat.t :=
  foldr insertByRecency [] l.

(** The [isOnline] flag [initial_data] gives a user:
    [!!data.onlineUsers[u.id] || u.id === initialUser.id]. *)
Definition onlineIn (initialUser : User.t) (online : gmap string string)
    (u : User.t) : bool :=
  truthyAt online (User.id u) || (User.id u === User.id initialUser).

(** The users [initial_data] starts from: [data.allUsers], or the fallback
    when that is empty, with [initialUser] added at the end when no user of
    the list has its id. *)
Definition baseUsers (initialUser : User.t) (data : InitialData.t) : list User.t :=
  let base :=
    match InitialData.allUsers data with
    | [] => initialAvailableUsers
    | us => us
    end in
  if existsb (fun u => User.id u === User.id initialUser) base
  then base else base ++ [initialUser].

(** The handler [socket.on('initial_data', data => ...)] of a render
    [seen]: the test [!selectedChatId] is on the value of that render. *)
Definition initialDataHandler (seen : Closure.t) (initialUser : User.t)
    (data : InitialData.t) (a : App) : App :=
  let sortedChats := sortByRecency (InitialData.chats data) in
  let baseUsers := baseUsers initialUser data in
  let mark u :=
    User.with_isOnline (onlineIn initialUser (InitialData.onlineUsers data) u) u in
  let a := setChats (fun _ => sortedChats) a in
  let a := setAvailableUsers (map mark baseUsers) a in
  let a := setCurrentUser (fun prev => mark <$> prev) a in
  let a :=
    match sortedChats with
    | c :: _ => if truthy (Closure.selectedChatId seen) then a
                else setSelectedChatId (Some (Chat.id c)) a
    | [] => setSelectedChatId None a
    end in
  setIsLoadingData false a.

(** [initial_data] as the component goes through it: the handler as
    registered, and then the effect again, since the handler has put a new
    object [{...prev, isOnline}] in [currentUser], one of the dependencies
    of the effect. *)
Definition on_initial_data (initialUser : User.t) (data : InitialData.t)
    (a : App) : App :=
  let a' := initialDataHandler (firstRender initialUser) initialUser data a in
  match currentUser a with
  | Some _ => rerunEffect initialUser a'
  | None => a'       (* not reached: the component always has a user *)
  end.

(** [socket.on('user_status_update', (userId, isOnline) => ...)] *)
Definition on_user_status_update (userId : string) (isOnline : bool)
    (a : App) : App :=
  let upd u := if User.id u === userId then User.with_isOnline isOnline u else u in
  let a' := setAvailableUsers (map upd (availableUsers a)) a in
  let a' :=
    setChats (map (fun chat =>
      Chat.mk (Chat.id chat) (Chat.isGroup chat) (Chat.name chat)
              (map upd (Chat.participants chat)) (Chat.messages chat)
              (Chat.lastMessage chat) (Chat.unreadCount chat))) a' in
  match currentUser a with
  | Some u => if userId === User.id u
              then setCurrentUser (fmap (User.with_isOnline isOnline)) a'
              else a'
  | None => a'
  end.

(** ** Incoming messages and status updates *)

Definition hasId (chatId : string) (c : Chat.t) : bool := Chat.id c === chatId.
Definition msgHasId (messageId : string) (m : Message.t) : bool :=
  Message.id m === messageId.

(** The chat [receive_message] puts in the place of the chat the message is
    for: unchanged when a message of that id is there already. *)
Definition withIncoming (selected : option string) (newMessage : Message.t)
    (chat : Chat.t) : Chat.t :=
  if existsb (msgHasId (Message.id newMessage)) (Chat.messages chat) then chat
  else
    Chat.mk (Chat.id chat) (Chat.isGroup chat) (Chat.name chat)
      (Chat.participants chat)
      (Chat.messages chat ++ [newMessage])
      (Some newMessage)
      (Some (if eq_sel (Chat.id chat) selected then 0
             else default 0 (Chat.unreadCount chat) + 1)).

(** [findIndex] then [splice(i, 1)] and [[movedChat, ...updatedChats]] *)
Definition moveToFront (chatId : string) (l : list Chat.t) : list Chat.t :=
  match findIndex (hasId chatId) l with
  | Some i =>
      match l !! i with
      | Some movedChat => movedChat :: without_index i l
      | None => l                 (* not reached: [i] is an index of [l] *)
      end
  | None => l
  end.

(** The handler [socket.on('receive_message', (newMessage, chatId) => ...)]
    of a render [seen]: [selectedChatId] and [currentUser] are the values
    of that render. *)
Definition receiveMessageHandler (seen : Closure.t) (newMessage : Message.t)
    (chatId : string) (a : App) : App :=
  let selected := Closure.selectedChatId seen in
  let a' :=
    if existsb (hasId chatId) (chats a) then
      setChats (fun prevChats =>
        moveToFront chatId
          (map (fun chat => if hasId chatId chat
                            then withIncoming selected newMessage chat
                            else chat) prevChats)) a
    else emit request_initial_data a in
  match Closure.currentUser seen with
  | Some u => if eq_sel chatId selected
              then emit (mark_as_read chatId (User.id u)) a'
              else a'
  | None => a'
  end.

(** [receive_message] as registered: the handler of the first render. *)
Definition on_receive_message (initialUser : User.t) (newMessage : Message.t)
    (chatId : string) (a : App) : App :=
  receiveMessageHandler (firstRender initialUser) newMessage chatId a.

(** [socket.on('message_status_update', (chatId, messageId, status) => ...)] *)
Definition on_message_status_update (chatId messageId : string)
    (status : Status) (a : App) : App :=
  setChats (map (fun chat =>
    if hasId chatId chat then
      Chat.with_messages
        (map (fun m => if msgHasId messageId m
                       then Message.with_status (Some status) m else m)
             (Chat.messages chat)) chat
    else chat)) a.

(** ** Chats created by the server *)

(** [socket.on('group_created', newChat => ...)] *)
Definition on_group_created (newChat : Chat.t) (a : App) : App :=
  toast "Added to Group"
    (setChats (fun prevChats =>
       if existsb (hasId (Chat.id newChat)) prevChats then prevChats
       else newChat :: prevChats) a).

(** The list both [direct_chat_started] and the [create_group]
    acknowledgement compute:
    [[newChat, ...prevChats.filter(c => c.id !== newChat.id)]] when the chat
    is there, [[newChat, ...prevChats]] otherwise. *)
Definition putFirst (newChat : Chat.t) (prevChats : list Chat.t) : list Chat.t :=
  if existsb (hasId (Chat.id newChat)) prevChats
  then newChat :: List.filter (fun c => negb (hasId (Chat.id newChat) c)) prevChats
  else newChat :: prevChats.

(** [socket.on('direct_chat_started', newChat => ...)] *)
Definition on_direct_chat_started (newChat : Chat.t) (a : App) : App :=
  toast "Chat Started"
    (setView view_chats
      (setSelectedChatId (Some (Chat.id newChat))
        (setChats (putFirst newChat) a))).

(** The acknowledgement callback of [create_group] in [handleCreateGroup]. *)
Definition createGroupAck (ack : GroupAck.t) (a : App) : App :=
  match GroupAck.success ack, GroupAck.newChat ack with
  | true, Some newChat =>
      setIsNewGroupModalOpen false
        (toast "Group Created"
          (setView view_chats
            (setSelectedChatId (Some (Chat.id newChat))
              (setChats (putFirst newChat) a))))
  | _, _ => toast "Group Creation Failed" a
  end.

(** ** User actions *)

(** The test of [handleSelectChat] on each chat:
    [chat.id === chatId && chat.unreadCount && chat.unreadCount > 0 && currentUser] *)
Definition hasUnread (chatId : string) (cu : option User.t) (chat : Chat.t) : bool :=
  hasId chatId chat
  && match Chat.unreadCount chat with Some n => Nat.ltb 0 n | None => false end
  && match cu with Some _ => true | None => false end.

(** The [mark_as_read] events the updater of [handleSelectChat] sends while
    it maps over the chats: one for each chat that passes the test,
    through [socketRef.current?.emit]. *)
Definition readReceipts (chatId : string) (a : App) : list ClientEvent :=
  match socket a, currentUser a with
  | true, Some u =>
      flat_map (fun chat =>
        if hasUnread chatId (currentUser a) chat
        then [mark_as_read chatId (User.id u)] else []) (chats a)
  | _, _ => []
  end.

(** [handleSelectChat(chatId)] *)
Definition handleSelectChat (chatId : string) (a : App) : App :=
  let receipts := readReceipts chatId a in
  let a' := setSelectedChatId (Some chatId) a in
  let a' :=
    setChats (map (fun chat =>
      if hasUnread chatId (currentUser a) chat
      then Chat.with_unreadCount (Some 0) chat else chat)) a' in
  let a' := fold_left (fun s e => emit e s) receipts a' in
  setView view_chats a'.

(** The local id [handleSendMessage] gives the message it builds:
    [`temp_${Date.now()}_${Math.random().toString(36).substring(2, 9)}`],
    where [time] is what [Date.now()] returns and [random] the characters
    taken from [Math.random()]. *)
Definition tempIdOf (time : N) (random : string) : string :=
  "temp_" +:+ pretty time +:+ "_" +:+ random.

(** The message [handleSendMessage] builds; [tempId] is its local id, a
    [tempIdOf], and [now] the clock it reads. *)
Definition newMessage (tempId : string) (now : Z) (u : User.t)
    (content : string) (type : MessageType) : Message.t :=
  Message.mk tempId u content now type (Some sent) None.

(** [updatedChat] of [handleSendMessage]: the target chat with the message
    appended, as its last message, and no unread message. *)
Definition sentInto (m : Message.t) (targetChat : Chat.t) : Chat.t :=
  Chat.mk (Chat.id targetChat) (Chat.isGroup targetChat) (Chat.name targetChat)
    (Chat.participants targetChat) (Chat.messages targetChat ++ [m])
    (Some m) (Some 0).

(** The optimistic update of [handleSendMessage]: the first chat of that id
    gets the message and goes to the front. *)
Definition optimisticAppend (chatId : string) (m : Message.t)
    (prevChats : list Chat.t) : option (list Chat.t) :=
  match findIndex (hasId chatId) prevChats with
  | None => None
  | Some targetChatIndex =>
      match prevChats !! targetChatIndex with
      | Some targetChat =>
          let updatedChat := sentInto m targetChat in
          Some (updatedChat :: without_index targetChatIndex prevChats)
      | None => Some prevChats    (* not reached *)
      end
  end.

(** [handleSendMessage(chatId, content, type)], up to the emission of
    [send_message]; the acknowledgement is [sendMessageAck] below.
    [tempId] is the local id the call computes, [tempIdOf time random] for
    the clock and the random number it reads. *)
Definition handleSendMessage (tempId : string) (now : Z)
    (chatId content : string) (type : MessageType) (a : App) : App :=
  match socket a, currentUser a with
  | true, Some u =>
      let m := newMessage tempId now u content type in
      let a' :=
        match optimisticAppend chatId m (chats a) with
        | Some l => setChats (fun _ => l) a
        | None => toast "Error" a
        end in
      emit (send_message chatId m) a'
  | _, _ => toast "Error" a
  end.

(** What the success branch of the acknowledgement makes of a message:
    [m.id === tempId ? { ...m, id: ack.messageId, status: 'delivered' } : m] *)
Definition confirmed (tempId confirmedId : string) (m : Message.t) : Message.t :=
  if msgHasId tempId m
  then Message.with_status (Some delivered) (Message.with_id confirmedId m)
  else m.

(** What the failure branch makes of a message:
    [m.id === tempId ? { ...m, status: undefined, error: ack.error || "Failed to send" } : m] *)
Definition reverted (tempId : string) (err : option string) (m : Message.t) : Message.t :=
  if msgHasId tempId m
  then Message.with_error (Some (or_else err "Failed to send"))
         (Message.with_status None m)
  else m.

(** The chat the success branch of the acknowledgement computes. *)
Definition confirmIn (tempId confirmedId : string) (chat : Chat.t) : Chat.t :=
  let updatedMessages := map (confirmed tempId confirmedId) (Chat.messages chat) in
  let updatedLastMessage :=
    match Chat.lastMessage chat with
    | Some lm =>
        if msgHasId tempId lm then
          match List.find (msgHasId confirmedId) updatedMessages with
          | Some m => Some m
          | None => Chat.lastMessage chat
          end
        else Chat.lastMessage chat
    | None => None
    end in
  Chat.with_lastMessage updatedLastMessage
    (Chat.with_messages updatedMessages chat).

(** The chat the failure branch of the acknowledgement computes. *)
Definition failIn (tempId : string) (err : option string) (chat : Chat.t) : Chat.t :=
  let revertedMessages := map (reverted tempId err) (Chat.messages chat) in
  let lastValidMessage :=
    last (List.filter (fun m => negb (msgHasId tempId m)) revertedMessages) in
  let revertedLastMessage :=
    match Chat.lastMessage chat with
    | Some lm => if msgHasId tempId lm then lastValidMessage
                 else Chat.lastMessage chat
    | None => None
    end in
  Chat.with_lastMessage revertedLastMessage
    (Chat.with_messages revertedMessages chat).

(** The acknowledgement callback [handleSendMessage] passes along with
    [send_message], for the message sent as [tempId] into [chatId]. *)
Definition sendMessageAck (chatId tempId : string) (ack : MessageAck.t)
    (a : App) : App :=
  if MessageAck.success ack && truthy (MessageAck.messageId ack) then
    let confirmedId := default "" (MessageAck.messageId ack) in
    setChats (map (fun chat =>
      if hasId chatId chat then confirmIn tempId confirmedId chat else chat)) a
  else
    toast "Message Failed"
      (setChats (map (fun chat =>
        if hasId chatId chat then failIn tempId (MessageAck.error ack) chat
        else chat)) a).

(** ** Runs of events *)

(** The messages of the list arrive for [chatId], one [receive_message]
    after the other. *)
Definition receiveAll (initialUser : User.t) (msgs : list Message.t)
    (chatId : string) (a : App) : App :=
  fold_left (fun s m => on_receive_message initialUser m chatId s) msgs a.

(** ** Observations *)

(** The first chat of that id, as [chats.find(chat => chat.id === chatId)]
    gives the selected chat to the rendering. *)
Definition findChat (chatId : string) (a : App) : option Chat.t :=
  List.find (hasId chatId) (chats a).

(** How many chats of the list have that id. *)
Definition countChats (chatId : string) (l : list Chat.t) : nat :=
  length (List.filter (hasId chatId) l).

(** How many messages of the list have that id. *)
Definition countMessages (messageId : string) (l : list Message.t) : nat :=
  length (List.filter (msgHasId messageId) l).

(** The chat of id [C] is [c], and no other chat of the list has the id. *)
Definition onlyChat (C : string) (c : Chat.t) (l : list Chat.t) : Prop :=
  exists l1 l2, l = l1 ++ c :: l2 /\ hasId C c = true
                /\ existsb (hasId C) l1 = false /\ existsb (hasId C) l2 = false.

(** The first message of that id in the first chat of that id. *)
Definition findMessage (chatId messageId : string) (a : App) : option Message.t :=
  match findChat chatId a with
  | Some c => List.find (msgHasId messageId) (Chat.messages c)
  | None => None
  end.

(** ** A session

    Alice is logged in and talks to Bob in [c1]; [c2] is the selected chat
    and [c3] a group with three unread messages. The states below are the
    ones the scenarios of the specification go through. *)

Module Scenario.
Definition alice : User.t :=
  User.mk "user1" "Alice" "https://picsum.photos/seed/alice/100/100" true.
Definition bob : User.t :=
  User.mk "user2" "Bob" "https://picsum.photos/seed/bob/100/100" true.

Definition hello : Message.t :=
  Message.mk "m1" bob "hello" 1000 text (Some read) None.

Definition c1 : Chat.t := Chat.mk "c1" false None [alice; bob] [] None None.
Definition c2 : Chat.t :=
  Chat.mk "c2" false None [alice; bob] [hello] (Some hello) (Some 0).
Definition c3 : Chat.t :=
  Chat.mk "c3" true (Some "Team") [alice; bob] [] None (Some 3).

Definition app : App :=
  mkApp (Some alice) [c2; c1; c3] (Some "c2") [alice; bob]
        view_chats false false true [] [].

(** Alice sends "hi" into [c1]. *)
Definition tempId : string := "temp_2000_k3j9x2a".
Definition sending : App := handleSendMessage tempId 2000 "c1" "hi" text app.

(** The two acknowledgements the server can answer with. *)
Definition ackOk : MessageAck.t := MessageAck.mk true (Some "m42") None.
Definition ackOffline : MessageAck.t := MessageAck.mk false None (Some "offline").

(** The message is confirmed as [m42]. *)
Definition confirmedAs42 : App := sendMessageAck "c1" tempId ackOk sending.

(** The broadcast of the message the server stored as [m42]. *)
Definition broadcast : Message.t :=
  Message.mk "m42" alice "hi" 2000 text (Some sent) None.

(** Three messages of Bob for [c1]. *)
Definition incoming : list Message.t :=
  [ Message.mk "m7" bob "one" 3000 text (Some sent) None;
    Message.mk "m8" bob "two" 3001 text (Some sent) None;
    Message.mk "m9" bob "three" 3002 text (Some sent) None ].

(** The copy of [c1] the server has while the message is in flight. *)
Definition c1_server : Chat.t := Chat.mk "c1" false None [alice; bob] [] None (Some 0).

(** The group [g1], as the acknowledgement and as the broadcast carry it. *)
Definition g1 : Chat.t := Chat.mk "g1" true (Some "Team") [alice; bob] [] None (Some 0).

(** What the server sends on reconnect: only Alice is online. *)
Definition snapshot : InitialData.t :=
  InitialData.mk [c2; c1] {[ "user1" := "socket-a" ]} [alice; bob].

(** A user the server knows under the id [constructor], and the same
    reconnect with her in the list of users: she is not online either. *)
Definition eve : User.t :=
  User.mk "constructor" "Eve" "https://picsum.photos/seed/eve/100/100" false.
Definition snapshotWithEve : InitialData.t :=
  InitialData.mk [c2; c1] {[ "user1" := "socket-a" ]} [alice; bob; eve].
End Scenario.

(** * Further parts of the client

    The handlers and callbacks of the page the sections above do not need,
    and the parts of the rendering that decide what a user sees of the
    store: the status icon of a message, the unread badge of a chat and the
    grouping of the messages of a chat. *)

(** ** Requests with a reply of their own

    [start_direct_chat] is answered by [direct_chat_started], the two call
    requests by an acknowledgement. The actions that send them return them
    beside the state, in the order sent. *)

Inductive Request :=
| start_direct_chat (selfId otherUserId : string)
| start_call (chatId : string) (message : Message.t)
| end_call (chatId : string) (message : Message.t).

(** ** Starting a direct chat *)

(** The test of [handleStartDirectChat] on each chat:
    [!chat.isGroup && chat.participants.length === 2
     && chat.participants.some(p => p.id === otherUserId)] *)
Definition isDirectChatWith (otherUserId : string) (chat : Chat.t) : bool :=
  negb (Chat.isGroup chat)
  && Nat.eqb (length (Chat.participants chat)) 2
  && existsb (fun p => User.id p === otherUserId) (Chat.participants chat).

(** [handleStartDirectChat(otherUserId)] *)
Definition handleStartDirectChat (otherUserId : string) (a : App)
    : App * list Request :=
  match socket a, currentUser a with
  | true, Some u =>
      if otherUserId === User.id u then (toast "Info" a, [])
      else
        match List.find (isDirectChatWith otherUserId) (chats a) with
        | Some existingChat =>
            (setView view_chats (handleSelectChat (Chat.id existingChat) a), [])
        | None =>
            (toast "Starting Chat..." a,
             [start_direct_chat (User.id u) otherUserId])
        end
  | _, _ => (toast "Error" a, [])
  end.

(** ** Calls *)

(** [type: 'audio' | 'video'] *)
Module CallType.
Inductive t := audio | video.
End CallType.

Definition callTypeName (t : CallType.t) : string :=
  match t with CallType.audio => "audio" | CallType.video => "video" end.

(** The message [handleStartCall] and [handleEndCall] build: the content is
    the kind of call, or its duration; there is no status. *)
Definition callMessage (tempId : string) (now : Z) (u : User.t)
    (content : string) (type : MessageType) : Message.t :=
  Message.mk tempId u content now type None None.

(** The optimistic update of the two call actions: like the one of
    [handleSendMessage], but [unreadCount] is left as it is. *)
Definition callAppend (chatId : string) (m : Message.t)
    (prevChats : list Chat.t) : list Chat.t :=
  match findIndex (hasId chatId) prevChats with
  | None => prevChats
  | Some targetChatIndex =>
      match prevChats !! targetChatIndex with
      | Some targetChat =>
          Chat.with_lastMessage (Some m)
            (Chat.with_messages (Chat.messages targetChat ++ [m]) targetChat)
          :: without_index targetChatIndex prevChats
      | None => prevChats         (* not reached *)
      end
  end.

(** [handleStartCall(chatId, type)]; [tempId] is [call_start_<time>]. *)
Definition handleStartCall (tempId : string) (now : Z) (chatId : string)
    (type : CallType.t) (a : App) : App * list Request :=
  match socket a, currentUser a with
  | true, Some u =>
      let callStartMessage :=
        callMessage tempId now u (callTypeName type) call_start in
      (setChats (callAppend chatId callStartMessage) a,
       [start_call chatId callStartMessage])
  | _, _ => (a, [])
  end.

(** [handleEndCall(chatId, duration)]; [tempId] is [call_end_<time>]. *)
Definition handleEndCall (tempId : string) (now : Z) (chatId duration : string)
    (a : App) : App * list Request :=
  match socket a, currentUser a with
  | true, Some u =>
      let callEndMessage := callMessage tempId now u duration call_end in
      (setChats (callAppend chatId callEndMessage) a,
       [end_call chatId callEndMessage])
  | _, _ => (a, [])
  end.

(** The acknowledgement callback of [start_call] and of [end_call]: the id
    of the message is replaced in the list; [title] is the toast of the
    failure. *)
Definition callAck (title chatId tempId : string) (ack : MessageAck.t)
    (a : App) : App :=
  if MessageAck.success ack && truthy (MessageAck.messageId ack) then
    let confirmedId := default "" (MessageAck.messageId ack) in
    setChats (map (fun c =>
      if hasId chatId c then
        Chat.with_messages
          (map (fun m => if msgHasId tempId m
                         then Message.with_id confirmedId m else m)
               (Chat.messages c)) c
      else c)) a
  else toast title a.

Definition startCallAck : string -> string -> MessageAck.t -> App -> App :=
  callAck "Call Start Failed".
Definition endCallAck : string -> string -> MessageAck.t -> App -> App :=
  callAck "Call End Failed".

(** ** Login *)

(** [handleLogin(username)], at the end of its delay: the user it makes the
    current one. [toLowerCase] is [String.prototype.toLowerCase] and [now]
    what [Date.now()] gives. *)
Definition handleLogin (toLowerCase : string -> string) (now : N)
    (username : string) : User.t :=
  match List.find (fun u => toLowerCase (User.name u) === toLowerCase username)
                  initialAvailableUsers with
  | None =>
      User.mk ("user_" +:+ pretty now) username
        ("https://picsum.photos/seed/" +:+ toLowerCase username +:+ "/100/100")
        true
  | Some user => User.with_isOnline true user
  end.

(** ** What the rendering shows *)

(** The icons [renderStatus] of [MessageBubble] chooses from; the two
    double checks differ in colour. *)
Inductive Icon := AlertCircle | Clock | Check | CheckCheck | CheckCheckBlue.

Definition isCallEvent (m : Message.t) : bool :=
  match Message.type m with
  | call_start | call_end => true
  | _ => false
  end.

(** [renderStatus()] of [MessageBubble], for the viewer [currentUser];
    [None] is no icon. *)
Definition renderStatus (currentUser : option User.t) (message : Message.t)
    : option Icon :=
  let isCurrentUser :=
    match currentUser with
    | Some u => User.id (Message.sender message) === User.id u
    | None => false
    end in
  let hasError := truthy (Message.error message) in
  let temporary := String.prefix "temp_" (Message.id message) in
  if negb isCurrentUser || isCallEvent message then None
  else
    match Message.type message with
    | image | video => None
    | _ =>
        if hasError then Some AlertCircle
        else
          match Message.status message with
          | Some sent => if temporary then Some Clock else Some Check
          | Some delivered => Some CheckCheck
          | Some read => Some CheckCheckBlue
          | _ => if negb temporary then Some Check else None
          end
    end.

(** The unread badge of a chat in [ChatList]: shown for a positive
    [unreadCount], with the count up to 9 and ["9+"] above. *)
Definition unreadBadge (chat : Chat.t) : option string :=
  match Chat.unreadCount chat with
  | Some n => if Nat.ltb 0 n
              then Some (if Nat.ltb 9 n then "9+" else pretty n)
              else None
  | None => None
  end.

(** A run of messages of one sender, as [ChatInterface] shows them. *)
Module Group.
Record t := mk {
  sender : User.t;
  messages : list Message.t;
}.
End Group.

(** One turn of the loop of [groupedMessages]. [currentGroup] is the index
    in [groups] of the group the loop holds a reference to, if any: pushing
    a message to that group changes the group in [groups]. Every message has
    its sender here, so [currentGroup.sender?.id === sender?.id] compares
    two ids. *)
Definition groupStep (st : list Group.t * option nat) (message : Message.t)
    : list Group.t * option nat :=
  let '(groups, currentGroup) := st in
  let sender := Message.sender message in
  let startGroup := (groups ++ [Group.mk sender [message]], Some (length groups)) in
  if isCallEvent message then
    (groups ++ [Group.mk sender [message]], None)
  else
    match currentGroup with
    | Some i =>
        match groups !! i with
        | Some g =>
            if User.id (Group.sender g) === User.id sender then
              (<[i := Group.mk (Group.sender g) (Group.messages g ++ [message])]> groups,
               currentGroup)
            else startGroup
        | None => startGroup      (* not reached *)
        end
    | None => startGroup
    end.

(** [groupedMessages] of [ChatInterface] *)
Definition groupedMessages (chat : Chat.t) : list Group.t :=
  (fold_left groupStep (Chat.messages chat) ([], None)).1.

(** A group as the rendering expects it: it has a message; it is one call
    event, or has no call event at all; and its messages are of the sender
    the group names. *)
Definition wellGrouped (g : Group.t) : Prop :=
  Group.messages g <> []
  /\ ((exists m, Group.messages g = [m] /\ isCallEvent m = true)
      \/ Forall (fun m => isCallEvent m = false) (Group.messages g))
  /\ Forall (fun m => User.id (Message.sender m) = User.id (Group.sender g))
            (Group.messages g).

(** ** Events

    All that can happen to the component, as one type, so that statements
    can speak of every run. *)

Inductive Event :=
| ev_disconnect (reason : string)
| ev_initial_data (data : InitialData.t)
| ev_user_status_update (userId : string) (isOnline : bool)
| ev_receive_message (message : Message.t) (chatId : string)
| ev_message_status_update (chatId messageId : string) (status : Status)
| ev_group_created (newChat : Chat.t)
| ev_direct_chat_started (newChat : Chat.t)
| ev_select_chat (chatId : string)
| ev_start_direct_chat (otherUserId : string)
| ev_send_message (tempId : string) (now : Z) (chatId content : string)
    (type : MessageType)
| ev_send_message_ack (chatId tempId : string) (ack : MessageAck.t)
| ev_start_call (tempId : string) (now : Z) (chatId : string) (type : CallType.t)
| ev_start_call_ack (chatId tempId : string) (ack : MessageAck.t)
| ev_end_call (tempId : string) (now : Z) (chatId duration : string)
| ev_end_call_ack (chatId tempId : string) (ack : MessageAck.t)
| ev_create_group_ack (ack : GroupAck.t).

Definition step (initialUser : User.t) (e : Event) (a : App) : App :=
  match e with
  | ev_disconnect reason => on_disconnect reason a
  | ev_initial_data data => on_initial_data initialUser data a
  | ev_user_status_update userId isOnline => on_user_status_update userId isOnline a
  | ev_receive_message m chatId => on_receive_message initialUser m chatId a
  | ev_message_status_update chatId messageId status =>
      on_message_status_update chatId messageId status a
  | ev_group_created newChat => on_group_created newChat a
  | ev_direct_chat_started newChat => on_direct_chat_started newChat a
  | ev_select_chat chatId => handleSelectChat chatId a
  | ev_start_direct_chat otherUserId => (handleStartDirectChat otherUserId a).1
  | ev_send_message tempId now chatId content type =>
      handleSendMessage tempId now chatId content type a
  | ev_send_message_ack chatId tempId ack => sendMessageAck chatId tempId ack a
  | ev_start_call tempId now chatId type =>
      (handleStartCall tempId now chatId type a).1
  | ev_start_call_ack chatId tempId ack => startCallAck chatId tempId ack a
  | ev_end_call tempId now chatId duration =>
      (handleEndCall tempId now chatId duration a).1
  | ev_end_call_ack chatId tempId ack => endCallAck chatId tempId ack a
  | ev_create_group_ack ack => createGroupAck ack a
  end.

Definition run (initialUser : User.t) (es : list Event) (a : App) : App :=
  fold_left (fun s e => step initialUser e s) es a.

(** The ids of the chats of the store, in order. *)
Definition chatIds (a : App) : list string := map Chat.id (chats a).

(** The events whose chats come from the server with distinct ids. *)
Definition distinctPayload (e : Event) : Prop :=
  match e with
  | ev_initial_data data => NoDup (map Chat.id (InitialData.chats data))
  | _ => True
  end.

(** ** A run of the session

    What happens to the session of [Scenario] in the examples of the
    further properties. *)

Module Replay.
(** Alice sends "hi", the server confirms and broadcasts it, Bob reads it;
    the connection drops and comes back; a group is created. *)
Definition events : list Event :=
  [ ev_send_message Scenario.tempId 2000 "c1" "hi" text;
    ev_send_message_ack "c1" Scenario.tempId Scenario.ackOk;
    ev_receive_message Scenario.broadcast "c1";
    ev_message_status_update "c1" "m42" read;
    ev_disconnect "transport close";
    ev_initial_data Scenario.snapshot;
    ev_create_group_ack (GroupAck.mk true (Some Scenario.g1) None);
    ev_group_created Scenario.g1;
    ev_select_chat "c1" ].

(** The id of the call Alice starts in the group [c3]. *)
Definition callId : string := "call_start_4000".
Definition callAckOk : MessageAck.t := MessageAck.mk true (Some "m77") None.
End Replay.

(** * Properties *)

(** ** Lists *)

Section list_facts.
Context {A : Type}.
Implicit Types (p : A -> bool) (l : list A).

Lemma findIndex_find p l x :
  List.find p l = Some x ->
  exists i, findIndex p l = Some i /\ l !! i = Some x /\ p x = true.
Proof.
  induction l as [|y l IH]; simpl; [discriminate|].
  destruct (p y) eqn:Hy.
  - intros [= ->]. by exists 0.
  - intros Hx. destruct (IH Hx) as (i & -> & Hi & Hp). by exists (S i).
Qed.

Lemma findIndex_none p l : findIndex p l = None -> existsb p l = false.
Proof.
  induction l as [|y l IH]; simpl; [done|].
  destruct (p y); [done|]. destruct (findIndex p l); [done|]. auto.
Qed.

Lemma find_existsb p l x : List.find p l = Some x -> existsb p l = true.
Proof.
  induction l as [|y l IH]; simpl; [done|].
  destruct (p y); [done|]. auto.
Qed.

Lemma filter_none p l : existsb p l = false -> List.filter p l = [].
Proof.
  induction l as [|y l IH]; simpl; [done|].
  destruct (p y); [done|]. auto.
Qed.

Lemma filter_negb_none p l :
  List.filter p (List.filter (fun x => negb (p x)) l) = [].
Proof.
  induction l as [|y l IH]; simpl; [done|].
  destruct (p y) eqn:Hy; simpl; [done|]. by rewrite Hy.
Qed.

Lemma filter_negb_all p l :
  existsb p l = false -> List.filter (fun x => negb (p x)) l = l.
Proof.
  induction l as [|y l IH]; simpl; [done|].
  destruct (p y); simpl; [done|]. intros H. by rewrite IH.
Qed.

(** A list with exactly one element that passes [p]: that element, with
    none before and none after. *)
Lemma unique_split p l x :
  length (List.filter p l) = 1 -> List.find p l = Some x ->
  exists l1 l2, l = l1 ++ x :: l2 /\ p x = true
                /\ existsb p l1 = false /\ existsb p l2 = false.
Proof.
  induction l as [|y l IH]; simpl; [done|].
  destruct (p y) eqn:Hy; simpl.
  - intros Hlen [= ->]. exists [], l. repeat split; try done.
    destruct (List.filter p l) as [|z r] eqn:Hf; [|done].
    clear -Hf. induction l as [|z l IH]; simpl in *; [done|].
    destruct (p z); [done|]. auto.
  - intros Hlen Hx. destruct (IH Hlen Hx) as (l1 & l2 & -> & ? & ? & ?).
    exists (y :: l1), l2. simpl. rewrite Hy. done.
Qed.

Lemma findIndex_split p l1 x l2 :
  existsb p l1 = false -> p x = true ->
  findIndex p (l1 ++ x :: l2) = Some (length l1).
Proof.
  intros H1 Hx. induction l1 as [|y l1 IH]; simpl in *.
  - by rewrite Hx.
  - destruct (p y); [done|]. by rewrite IH.
Qed.

Lemma find_split p l1 x l2 :
  existsb p l1 = false -> p x = true ->
  List.find p (l1 ++ x :: l2) = Some x.
Proof.
  intros H1 Hx. induction l1 as [|y l1 IH]; simpl in *.
  - by rewrite Hx.
  - destruct (p y); [done|]. auto.
Qed.

Lemma filter_split p l1 x l2 :
  existsb p l1 = false -> p x = true -> existsb p l2 = false ->
  List.filter p (l1 ++ x :: l2) = [x].
Proof.
  intros H1 Hx H2. rewrite List.filter_app. simpl.
  by rewrite Hx, !filter_none.
Qed.

Lemma without_index_split l1 x l2 :
  without_index (length l1) (l1 ++ x :: l2) = l1 ++ l2.
Proof.
  unfold without_index.
  rewrite take_app_length.
  change (S (length l1)) with (1 + length l1).
  replace (1 + length l1) with (length l1 + 1) by lia.
  rewrite <- drop_drop, drop_app_length. done.
Qed.

(** Mapping a function that only changes elements passing [p]. *)
Lemma map_split p (f : A -> A) l1 x l2 :
  existsb p l1 = false -> existsb p l2 = false ->
  map (fun y => if p y then f y else y) (l1 ++ x :: l2)
  = l1 ++ (if p x then f x else x) :: l2.
Proof.
  intros H1 H2.
  assert (Hid : forall l, existsb p l = false ->
                 map (fun y => if p y then f y else y) l = l).
  { clear. induction l as [|y l IH]; simpl; [done|].
    destruct (p y); [done|]. intros H. by rewrite IH. }
  rewrite map_app. simpl. by rewrite !Hid.
Qed.
End list_facts.

Lemma hasId_refl (c : Chat.t) : hasId (Chat.id c) c = true.
Proof. apply String.eqb_refl. Qed.

Lemma hasId_true (chatId : string) (c : Chat.t) :
  hasId chatId c = true <-> Chat.id c = chatId.
Proof. apply String.eqb_eq. Qed.

Lemma hasId_false (chatId : string) (c : Chat.t) :
  hasId chatId c = false <-> Chat.id c <> chatId.
Proof. apply String.eqb_neq. Qed.

Lemma msgHasId_true (messageId : string) (m : Message.t) :
  msgHasId messageId m = true <-> Message.id m = messageId.
Proof. apply String.eqb_eq. Qed.

Lemma msgHasId_false (messageId : string) (m : Message.t) :
  msgHasId messageId m = false <-> Message.id m <> messageId.
Proof. apply String.eqb_neq. Qed.

(** ** Chats added by the server: [putFirst] and [group_created] *)

Lemma putFirst_cons (newChat : Chat.t) (l : list Chat.t) :
  putFirst newChat l
  = newChat :: List.filter (fun c => negb (hasId (Chat.id newChat) c)) l.
Proof.
  unfold putFirst. destruct (existsb _ l) eqn:He; [done|].
  by rewrite filter_negb_all.
Qed.

Lemma countChats_putFirst (newChat : Chat.t) (l : list Chat.t) :
  countChats (Chat.id newChat) (putFirst newChat l) = 1.
Proof.
  rewrite putFirst_cons. unfold countChats. simpl.
  by rewrite hasId_refl, filter_negb_none.
Qed.

Lemma countChats_existsb (chatId : string) (l : list Chat.t) :
  0 < countChats chatId l -> existsb (hasId chatId) l = true.
Proof.
  unfold countChats. induction l as [|c l IH]; simpl; [lia|].
  destruct (hasId chatId c); [done|]. auto.
Qed.

(** C7. When the acknowledgement of [create_group] that carries the new
    chat of id [G] and the [group_created] broadcast of a chat of the same
    id are both delivered, in either order, the chat list ends with exactly
    one chat of id [G]. *)
Theorem group_ack_and_broadcast_once (G : string) (a b : Chat.t)
    (e : option string) (s : App) :
  Chat.id a = G -> Chat.id b = G ->
  let ack := GroupAck.mk true (Some a) e in
  countChats G (chats (createGroupAck ack (on_group_created b s))) = 1
  /\ countChats G (chats (on_group_created b (createGroupAck ack s))) = 1.
Proof.
  intros <- Hb ack. split.
  - simpl. apply countChats_putFirst.
  - simpl. rewrite Hb.
    rewrite countChats_existsb; rewrite countChats_putFirst; [done | lia].
Qed.

(** ** [direct_chat_started] *)


(** ** Disconnect and reconnect *)

Lemma initialAvailableUsers_offline (u : User.t) :
  u ∈ initialAvailableUsers -> User.isOnline u = false.
Proof.
  unfold initialAvailableUsers. intros H.
  repeat (apply elem_of_cons in H as [->|H]; [done|]).
  by apply elem_of_nil in H.
Qed.

(** What the effect leaves as it was when it runs again. *)
Lemma rerunEffect_keeps (initialUser : User.t) (s : App) :
  chats (rerunEffect initialUser s) = chats s
  /\ availableUsers (rerunEffect initialUser s) = availableUsers s
  /\ selectedChatId (rerunEffect initialUser s) = selectedChatId s
  /\ emitted (rerunEffect initialUser s) = emitted s.
Proof. done. Qed.

Lemma initial_data_keeps (initialUser : User.t) (data : InitialData.t) (s : App) :
  let s0 := initialDataHandler (firstRender initialUser) initialUser data s in
  chats (on_initial_data initialUser data s) = chats s0
  /\ availableUsers (on_initial_data initialUser data s) = availableUsers s0
  /\ selectedChatId (on_initial_data initialUser data s) = selectedChatId s0
  /\ emitted (on_initial_data initialUser data s) = emitted s0.
Proof.
  intros s0. unfold on_initial_data. fold s0.
  destruct (currentUser s); [apply rerunEffect_keeps|done].
Qed.

Lemma chats_initial_data (initialUser : User.t) (data : InitialData.t) (s : App) :
  chats (on_initial_data initialUser data s)
  = sortByRecency (InitialData.chats data).
Proof.
  destruct (initial_data_keeps initialUser data s) as (-> & _).
  unfold initialDataHandler. by destruct (sortByRecency _).
Qed.

Lemma availableUsers_initial_data (initialUser : User.t)
    (data : InitialData.t) (s : App) :
  availableUsers (on_initial_data initialUser data s)
  = map (fun u => User.with_isOnline
                    (onlineIn initialUser (InitialData.onlineUsers data) u) u)
        (baseUsers initialUser data).
Proof.
  destruct (initial_data_keeps initialUser data s) as (_ & -> & _).
  unfold initialDataHandler. by destruct (sortByRecency _).
Qed.

Lemma insertByRecency_perm (c : Chat.t) (l : list Chat.t) :
  insertByRecency c l ≡ₚ c :: l.
Proof.
  induction l as [|d l IH]; simpl; [done|].
  destruct (Z.leb (recency d) (recency c)); [done|].
  rewrite IH. apply Permutation_swap.
Qed.

Lemma sortByRecency_perm (l : list Chat.t) : sortByRecency l ≡ₚ l.
Proof.
  unfold sortByRecency. induction l as [|c l IH]; simpl; [done|].
  by rewrite insertByRecency_perm, IH.
Qed.


Lemma baseUsers_self (initialUser : User.t) (data : InitialData.t) :
  exists u, u ∈ baseUsers initialUser data /\ User.id u = User.id initialUser.
Proof.
  unfold baseUsers. set (base := match InitialData.allUsers data with
                                 | [] => _ | _ => _ end).
  destruct (existsb _ base) eqn:He.
  - apply existsb_exists in He as (u & Hin & Hu).
    exists u. split; [by apply list_elem_of_In | by apply String.eqb_eq].
  - exists initialUser. split; [|done]. apply elem_of_app. right. by left.
Qed.

(** C9, as the code has it. A disconnect that the client did not ask for
    empties the chat list and the selection and puts the fallback list,
    where nobody is online, in the place of the user list. The
    [initial_data] that follows gives, in the user list, every user [U] that
    is not in its online snapshot, is not the user of the session and does
    not have the name of an inherited property as its id,
    [isOnline = false]; the user of the session is in the list and online.
    The chats of the store are then the chats of the payload, so that the
    copies of the users among their participants have the flags the payload
    gives them. *)
Theorem reconnect_presence (initialUser : User.t) (reason : string)
    (data : InitialData.t) (U : string) (s : App) :
  reason <> "io client disconnect" ->
  InitialData.onlineUsers data !! U = None ->
  U ∉ inheritedKeys ->
  U <> User.id initialUser ->
  let s1 := on_disconnect reason s in
  let s2 := on_initial_data initialUser data s1 in
  chats s1 = [] /\ selectedChatId s1 = None
  /\ availableUsers s1 = initialAvailableUsers
  /\ (forall u, u ∈ availableUsers s1 -> User.isOnline u = false)
  /\ (forall u, u ∈ InitialData.allUsers data -> User.id u = U ->
        User.with_isOnline false u ∈ availableUsers s2)
  /\ (forall u, u ∈ availableUsers s2 -> User.id u = U ->
        User.isOnline u = false)
  /\ (exists u, u ∈ availableUsers s2 /\ User.id u = User.id initialUser)
  /\ (forall u, u ∈ availableUsers s2 -> User.id u = User.id initialUser ->
        User.isOnline u = true)
  /\ chats s2 ≡ₚ InitialData.chats data.
Proof.
  intros Hreason Hoff Hown Hne s1 s2.
  assert (Hs1 : s1 = setSelectedChatId None
      (setAvailableUsers initialAvailableUsers
        (setChats (fun _ => [])
          (setIsLoadingData false (toast "Connection Lost" s))))).
  { subst s1. unfold on_disconnect.
    apply String.eqb_neq in Hreason. by rewrite Hreason. }
  assert (Hmark : forall u, User.id u = U ->
    onlineIn initialUser (InitialData.onlineUsers data) u = false).
  { intros u <-. unfold onlineIn, truthyAt. rewrite Hoff.
    assert (existsb (String.eqb (User.id u)) inheritedKeys = false) as ->.
    { destruct (existsb _ _) eqn:He; [|done].
      apply existsb_exists in He as (k & Hin & Hk).
      apply String.eqb_eq in Hk. subst k. by apply list_elem_of_In in Hin. }
    simpl. by apply String.eqb_neq. }
  subst s2. rewrite availableUsers_initial_data, chats_initial_data.
  rewrite Hs1. simpl.
  split; [done|]. split; [done|]. split; [done|].
  split; [apply initialAvailableUsers_offline|].
  split; [|split; [|split; [|split; [|apply sortByRecency_perm]]]].
  - intros u Hin Hid. apply list_elem_of_fmap.
    exists u. rewrite (Hmark u Hid). split; [done|].
    unfold baseUsers. destruct (InitialData.allUsers data) as [|v us] eqn:Hall.
    { by apply elem_of_nil in Hin. }
    destruct (existsb _ (v :: us)); [done|]. apply elem_of_app. by left.
  - intros u Hin Hid. apply list_elem_of_fmap in Hin as (v & -> & Hv).
    simpl in *. by apply Hmark.
  - destruct (baseUsers_self initialUser data) as (u & Hin & Hid).
    eexists. split; [apply list_elem_of_fmap; by exists u|]. done.
  - intros u Hin Hid. apply list_elem_of_fmap in Hin as (v & -> & Hv).
    simpl in *. unfold onlineIn. apply String.eqb_eq in Hid.
    rewrite Hid. apply orb_true_r.
Qed.

(** ** Sending a message *)

Lemma optimisticAppend_found (chatId : string) (m : Message.t)
    (l : list Chat.t) (targetChat : Chat.t) :
  List.find (hasId chatId) l = Some targetChat ->
  exists i, l !! i = Some targetChat /\ Chat.id targetChat = chatId
    /\ optimisticAppend chatId m l
       = Some (sentInto m targetChat :: without_index i l).
Proof.
  intros Hf. destruct (findIndex_find _ _ _ Hf) as (i & Hi & Hl & Hp).
  exists i. unfold optimisticAppend. rewrite Hi, Hl.
  by apply hasId_true in Hp.
Qed.

Lemma handleSendMessage_found (tempId : string) (now : Z)
    (chatId content : string) (type : MessageType) (s : App)
    (u : User.t) (targetChat : Chat.t) :
  socket s = true -> currentUser s = Some u ->
  findChat chatId s = Some targetChat ->
  let m := newMessage tempId now u content type in
  exists i, chats s !! i = Some targetChat /\ Chat.id targetChat = chatId
    /\ handleSendMessage tempId now chatId content type s
       = emit (send_message chatId m)
           (setChats (fun _ => sentInto m targetChat :: without_index i (chats s)) s).
Proof.
  intros Hsock Hcu Hf m.
  destruct (optimisticAppend_found chatId m _ _ Hf) as (i & Hi & Hid & Ho).
  exists i. unfold handleSendMessage. rewrite Hsock, Hcu.
  fold m. by rewrite Ho.
Qed.

Lemma prefix_append (s t : string) : String.prefix s (s +:+ t) = true.
Proof.
  induction s as [|a s IH]; simpl; [by destruct t|].
  by destruct (Ascii.ascii_dec a a).
Qed.

(** C3, as the code has it. Sending into a chat of the store, with a socket
    and a user, builds a message of status ['sent'] under the local id, which
    starts with [temp_], appends it to the messages of the first chat of
    that id, makes it the [lastMessage] of that chat and puts the chat at
    index 0, the other chats keeping their order; all of it in
    [handleSendMessage] itself, before any acknowledgement. *)
Theorem send_appends_sent_message (time : N) (random : string) (now : Z)
    (chatId content : string) (type : MessageType) (s : App)
    (u : User.t) (targetChat : Chat.t) :
  socket s = true -> currentUser s = Some u ->
  findChat chatId s = Some targetChat ->
  let tempId := tempIdOf time random in
  let s' := handleSendMessage tempId now chatId content type s in
  exists (c' : Chat.t) (m : Message.t) (i : nat),
    chats s' !! 0 = Some c' /\ findChat chatId s' = Some c'
    /\ Chat.id c' = chatId
    /\ Chat.messages c' = Chat.messages targetChat ++ [m]
    /\ Chat.lastMessage c' = Some m
    /\ Message.id m = tempId
    /\ String.prefix "temp_" (Message.id m) = true
    /\ Message.status m = Some sent
    /\ Message.sender m = u /\ Message.content m = content
    /\ Message.type m = type /\ Message.timestamp m = now
    /\ Message.error m = None
    /\ chats s !! i = Some targetChat
    /\ chats s' = c' :: without_index i (chats s).
Proof.
  intros Hsock Hcu Hf tempId s'.
  destruct (handleSendMessage_found tempId now chatId content type s u
              targetChat Hsock Hcu Hf) as (i & Hi & Hid & Heq).
  subst s'. rewrite Heq. unfold findChat. simpl.
  eexists _, _, i. split; [done|]. split.
  { unfold hasId. simpl. rewrite Hid. by rewrite String.eqb_refl. }
  repeat split; try done.
  apply prefix_append.
Qed.

(** C10. Sending into a chat of the store sets the [unreadCount] of that
    chat to 0 in the update that appends the message, whichever chat is
    selected, and the only event sent is [send_message]: no [mark_as_read]
    goes to the server. *)
Theorem send_resets_unread_silently (tempId : string) (now : Z)
    (chatId content : string) (type : MessageType) (s : App)
    (u : User.t) (targetChat : Chat.t) :
  socket s = true -> currentUser s = Some u ->
  findChat chatId s = Some targetChat ->
  let m := newMessage tempId now u content type in
  let s' := handleSendMessage tempId now chatId content type s in
  (exists c' : Chat.t,
      findChat chatId s' = Some c'
      /\ Chat.unreadCount c' = Some 0
      /\ Chat.messages c' = Chat.messages targetChat ++ [m]
      /\ Chat.lastMessage c' = Some m)
  /\ emitted s' = emitted s ++ [send_message chatId m]
  /\ (forall c w, mark_as_read c w ∈ emitted s' -> mark_as_read c w ∈ emitted s)
  /\ selectedChatId s' = selectedChatId s.
Proof.
  intros Hsock Hcu Hf m s'.
  destruct (handleSendMessage_found tempId now chatId content type s u
              targetChat Hsock Hcu Hf) as (i & Hi & Hid & Heq).
  subst s'. rewrite Heq. unfold findChat. simpl.
  split; [|split; [done|split; [|done]]].
  - exists (sentInto m targetChat). split; [|done].
    unfold hasId. simpl. rewrite Hid. by rewrite String.eqb_refl.
  - intros c w Hin. apply elem_of_app in Hin as [Hin|Hin]; [done|].
    apply list_elem_of_singleton in Hin. discriminate.
Qed.

(** ** The acknowledgement of [send_message] *)

Lemma map_lookup {A B} (f : A -> B) (l : list A) (i : nat) :
  map f l !! i = f <$> l !! i.
Proof. apply (list_lookup_fmap f l i). Qed.

Lemma unique_lookup {A} (p : A -> bool) (l : list A) (j : nat) (x : A) :
  length (List.filter p l) = 1 -> l !! j = Some x -> p x = true ->
  exists l1 l2, l = l1 ++ x :: l2 /\ length l1 = j
                /\ existsb p l1 = false /\ existsb p l2 = false.
Proof.
  revert j. induction l as [|y l IH]; intros j; simpl; [done|].
  destruct (p y) eqn:Hy; simpl.
  - intros Hlen Hj Hx.
    assert (Hnone : existsb p l = false).
    { destruct (existsb p l) eqn:He; [|done].
      apply existsb_exists in He as (z & Hin & Hz).
      assert (In z (List.filter p l)) as Hin' by by apply List.filter_In.
      destruct (List.filter p l); [done|]. simpl in Hlen. lia. }
    destruct j as [|j]; simpl in Hj.
    + injection Hj as ->. by exists [], l.
    + apply list_elem_of_lookup_2, list_elem_of_In in Hj.
      assert (existsb p l = true) by (apply existsb_exists; eauto).
      congruence.
  - intros Hlen Hj Hx. destruct j as [|j]; simpl in Hj.
    + injection Hj as ->. congruence.
    + destruct (IH j Hlen Hj Hx) as (l1 & l2 & -> & <- & ? & ?).
      exists (y :: l1), l2. simpl. by rewrite Hy.
Qed.

Lemma confirmIn_messages (tempId K : string) (c : Chat.t) :
  Chat.messages (confirmIn tempId K c) = map (confirmed tempId K) (Chat.messages c).
Proof. done. Qed.

Lemma find_confirmed_exists (tempId K : string) (l : list Message.t)
    (j : nat) (m : Message.t) :
  l !! j = Some m -> Message.id m = tempId ->
  exists x, List.find (msgHasId K) (map (confirmed tempId K) l) = Some x
            /\ Message.id x = K /\ x ∈ map (confirmed tempId K) l.
Proof.
  intros Hj Hm.
  destruct (List.find (msgHasId K) (map (confirmed tempId K) l)) as [x|] eqn:Hf.
  - exists x. apply List.find_some in Hf as [Hin Hx].
    split; [done|]. split; [by apply msgHasId_true | by apply list_elem_of_In].
  - exfalso.
    assert (Hin : In (confirmed tempId K m) (map (confirmed tempId K) l)).
    { apply in_map. apply list_elem_of_In. by eapply list_elem_of_lookup_2. }
    apply (List.find_none _ _ Hf) in Hin. revert Hin.
    unfold confirmed. apply msgHasId_true in Hm. rewrite Hm.
    unfold msgHasId. simpl. by rewrite String.eqb_refl.
Qed.

Lemma find_confirmed_unique (tempId K : string) (l : list Message.t)
    (j : nat) (m : Message.t) :
  l !! j = Some m -> Message.id m = tempId ->
  countMessages K l = 0 -> countMessages tempId l = 1 ->
  List.find (msgHasId K) (map (confirmed tempId K) l)
  = Some (confirmed tempId K m).
Proof.
  intros Hj Hm HK HL. apply msgHasId_true in Hm.
  destruct (unique_lookup _ _ _ _ HL Hj Hm) as (l1 & l2 & -> & _ & H1 & H2).
  unfold confirmed at 1.
  rewrite (map_split (msgHasId tempId)) by done.
  apply find_split.
  - unfold countMessages in HK. rewrite List.filter_app, length_app in HK.
    destruct (existsb (msgHasId K) l1) eqn:He; [|done].
    apply existsb_exists in He as (z & Hin & Hz).
    assert (In z (List.filter (msgHasId K) l1)) by by apply List.filter_In.
    destruct (List.filter (msgHasId K) l1); [done|]. simpl in HK. lia.
  - fold (confirmed tempId K m). unfold confirmed. rewrite Hm.
    apply String.eqb_refl.
Qed.

(** C5, as the code has it. A success acknowledgement that carries the
    confirmed id [K] leaves the message sent as [tempId] at its position,
    with its content, timestamp, sender, type and error; it gets the id [K]
    and the status ['delivered']. The other messages of the chat and the
    other fields of the chat do not change, but for [lastMessage]: when that
    had the id [tempId] it becomes a message of id [K] of the list (the
    confirmed message itself when [K] is new to the chat and [tempId]
    occurs once), and it stays otherwise. The chats of another id are not
    modified. *)
Theorem success_ack_confirms (chatId tempId K : string) (ack : MessageAck.t)
    (s : App) (i j : nat) (c : Chat.t) (m : Message.t) :
  MessageAck.success ack = true -> MessageAck.messageId ack = Some K ->
  K <> "" ->
  chats s !! i = Some c -> Chat.id c = chatId ->
  Chat.messages c !! j = Some m -> Message.id m = tempId ->
  let s' := sendMessageAck chatId tempId ack s in
  exists (c' : Chat.t) (m' : Message.t),
    chats s' !! i = Some c' /\ Chat.messages c' !! j = Some m'
    /\ length (Chat.messages c') = length (Chat.messages c)
    /\ Message.id m' = K /\ Message.status m' = Some delivered
    /\ Message.content m' = Message.content m
    /\ Message.timestamp m' = Message.timestamp m
    /\ Message.sender m' = Message.sender m
    /\ Message.type m' = Message.type m
    /\ Message.error m' = Message.error m
    /\ (forall k x, Chat.messages c !! k = Some x -> Message.id x <> tempId ->
          Chat.messages c' !! k = Some x)
    /\ Chat.with_lastMessage (Chat.lastMessage c)
         (Chat.with_messages (Chat.messages c) c') = c
    /\ (forall lm, Chat.lastMessage c = Some lm -> Message.id lm = tempId ->
          (exists x, Chat.lastMessage c' = Some x /\ Message.id x = K
                     /\ x ∈ Chat.messages c')
          /\ (countMessages K (Chat.messages c) = 0 ->
              countMessages tempId (Chat.messages c) = 1 ->
              Chat.lastMessage c' = Some m'))
    /\ (forall lm, Chat.lastMessage c = Some lm -> Message.id lm <> tempId ->
          Chat.lastMessage c' = Some lm)
    /\ (Chat.lastMessage c = None -> Chat.lastMessage c' = None)
    /\ length (chats s') = length (chats s)
    /\ (forall k d, chats s !! k = Some d -> Chat.id d <> chatId ->
          chats s' !! k = Some d)
    /\ selectedChatId s' = selectedChatId s /\ emitted s' = emitted s.
Proof.
  intros Hsucc HK Hne Hi Hc Hj Hm s'.
  assert (Hs' : s' = setChats (map (fun chat =>
      if hasId chatId chat then confirmIn tempId K chat else chat)) s).
  { subst s'. unfold sendMessageAck. rewrite Hsucc, HK. simpl.
    apply String.eqb_neq in Hne. by rewrite Hne. }
  rewrite Hs'. clear Hs' s'. simpl.
  exists (confirmIn tempId K c), (confirmed tempId K m).
  assert (Hcm : confirmed tempId K m
                = Message.with_status (Some delivered) (Message.with_id K m)).
  { unfold confirmed. apply msgHasId_true in Hm. by rewrite Hm. }
  split.
  { rewrite map_lookup, Hi. simpl. apply hasId_true in Hc. by rewrite Hc. }
  rewrite confirmIn_messages.
  split; [by rewrite map_lookup, Hj|].
  split; [apply length_map|].
  rewrite Hcm. do 7 (split; [done|]).
  split.
  { intros k x Hk Hx. rewrite map_lookup, Hk. simpl. unfold confirmed.
    apply msgHasId_false in Hx. by rewrite Hx. }
  split; [by destruct c|].
  split.
  { intros lm Hlm Hid. split.
    - destruct (find_confirmed_exists tempId K _ _ _ Hj Hm) as (x & Hf & Hx & Hin).
      exists x. split; [|done]. unfold confirmIn. simpl. rewrite Hlm.
      apply msgHasId_true in Hid. rewrite Hid.
      by rewrite Hf.
    - intros H0 H1. unfold confirmIn. simpl. rewrite Hlm.
      apply msgHasId_true in Hid. rewrite Hid.
      by rewrite (find_confirmed_unique tempId K _ _ _ Hj Hm H0 H1), Hcm. }
  split.
  { intros lm Hlm Hid. unfold confirmIn. simpl. rewrite Hlm.
    apply msgHasId_false in Hid. by rewrite Hid. }
  split; [intros Hlm; unfold confirmIn; simpl; by rewrite Hlm|].
  split; [apply length_map|].
  split; [|done].
  intros k d Hk Hd. rewrite map_lookup, Hk. simpl.
  apply hasId_false in Hd. by rewrite Hd.
Qed.

Lemma failIn_messages (tempId : string) (err : option string) (c : Chat.t) :
  Chat.messages (failIn tempId err c) = map (reverted tempId err) (Chat.messages c).
Proof. done. Qed.

(** Marking the failed messages does not touch the others. *)
Lemma filter_others_reverted (tempId : string) (err : option string)
    (l : list Message.t) :
  List.filter (fun m => negb (msgHasId tempId m)) (map (reverted tempId err) l)
  = List.filter (fun m => negb (msgHasId tempId m)) l.
Proof.
  induction l as [|m l IH]; simpl; [done|].
  rewrite IH. unfold reverted.
  destruct (msgHasId tempId m) eqn:Hm; simpl; [|by rewrite Hm].
  unfold msgHasId in *. simpl. by rewrite Hm.
Qed.

Lemma last_filter_others (tempId : string) (l : list Message.t) (x : Message.t) :
  last (List.filter (fun m => negb (msgHasId tempId m)) l) = Some x ->
  Message.id x <> tempId /\ x ∈ l.
Proof.
  intros Hl. apply last_Some_elem_of, list_elem_of_In, List.filter_In in Hl
    as [Hin Hx].
  split; [|by apply list_elem_of_In].
  apply msgHasId_false. by destruct (msgHasId tempId x).
Qed.

(** C4, as the code has it. An acknowledgement that is not a success leaves
    the message sent as [tempId] in the list, at its position and under its
    temporary id, with its content, timestamp, sender and type; its status
    is made undefined and its [error] is the reason of the acknowledgement,
    or ["Failed to send"] when that is missing or empty. When the
    [lastMessage] of the chat had the id [tempId], it goes back to the last
    message of the chat with another id, and is absent when there is none;
    it stays otherwise. *)
Theorem failure_ack_marks_error (chatId tempId : string) (ack : MessageAck.t)
    (s : App) (i j : nat) (c : Chat.t) (m : Message.t) :
  MessageAck.success ack && truthy (MessageAck.messageId ack) = false ->
  chats s !! i = Some c -> Chat.id c = chatId ->
  Chat.messages c !! j = Some m -> Message.id m = tempId ->
  let s' := sendMessageAck chatId tempId ack s in
  let others := List.filter (fun x => negb (msgHasId tempId x)) in
  exists (c' : Chat.t) (m' : Message.t),
    chats s' !! i = Some c' /\ Chat.messages c' !! j = Some m'
    /\ length (Chat.messages c') = length (Chat.messages c)
    /\ Message.id m' = tempId /\ Message.status m' = None
    /\ Message.error m'
       = Some (or_else (MessageAck.error ack) "Failed to send")
    /\ Message.content m' = Message.content m
    /\ Message.timestamp m' = Message.timestamp m
    /\ Message.sender m' = Message.sender m
    /\ Message.type m' = Message.type m
    /\ (forall lm, Chat.lastMessage c = Some lm -> Message.id lm = tempId ->
          Chat.lastMessage c' = last (others (Chat.messages c))
          /\ Chat.lastMessage c' <> Some m'
          /\ forall x, Chat.lastMessage c' = Some x ->
               Message.id x <> tempId /\ x ∈ Chat.messages c)
    /\ (forall lm, Chat.lastMessage c = Some lm -> Message.id lm <> tempId ->
          Chat.lastMessage c' = Some lm)
    /\ (Chat.lastMessage c = None -> Chat.lastMessage c' = None).
Proof.
  intros Hfail Hi Hc Hj Hm s' others.
  assert (Hs' : chats s' = map (fun chat =>
      if hasId chatId chat then failIn tempId (MessageAck.error ack) chat
      else chat) (chats s)).
  { subst s'. unfold sendMessageAck. by rewrite Hfail. }
  rewrite Hs'. clear Hs' s'.
  set (err := MessageAck.error ack).
  exists (failIn tempId err c), (reverted tempId err m).
  assert (Hrm : reverted tempId err m
    = Message.with_error (Some (or_else err "Failed to send"))
        (Message.with_status None m)).
  { unfold reverted. apply msgHasId_true in Hm. by rewrite Hm. }
  split.
  { rewrite map_lookup, Hi. simpl. apply hasId_true in Hc. by rewrite Hc. }
  rewrite failIn_messages.
  split; [by rewrite map_lookup, Hj|].
  split; [apply length_map|].
  rewrite Hrm. do 7 (split; [done|]).
  assert (Hlast : forall lm, Chat.lastMessage c = Some lm ->
            Message.id lm = tempId ->
            Chat.lastMessage (failIn tempId err c)
            = last (others (Chat.messages c))).
  { intros lm Hlm Hid. unfold failIn. simpl. rewrite Hlm.
    apply msgHasId_true in Hid. rewrite Hid.
    subst others. simpl. by rewrite filter_others_reverted. }
  split; [|split].
  - intros lm Hlm Hid. rewrite (Hlast lm Hlm Hid).
    split; [done|]. split.
    + intros Hx. apply last_filter_others in Hx as [Hx _].
      by apply Hx.
    + intros x Hx. by apply last_filter_others in Hx.
  - intros lm Hlm Hid. unfold failIn. simpl. rewrite Hlm.
    apply msgHasId_false in Hid. by rewrite Hid.
  - intros Hlm. unfold failIn. simpl. by rewrite Hlm.
Qed.

(** ** Status updates *)

Lemma status_forward_refl (st : Status) : status_forward st st = true.
Proof. by destruct st. Qed.

(** C1, as the code has it. [message_status_update] gives the messages of
    that id in the chats of that id the status it carries, whatever status
    they had, and changes no other message: positions and ids stay. The
    status of a message does not move backwards when the update carries the
    same or a later status than the message has. *)
Theorem status_update_overwrites (chatId messageId : string) (st : Status)
    (s : App) (i j : nat) (c : Chat.t) (m : Message.t) :
  chats s !! i = Some c -> Chat.messages c !! j = Some m ->
  let s' := on_message_status_update chatId messageId st s in
  exists (c' : Chat.t) (m' : Message.t),
    chats s' !! i = Some c' /\ Chat.messages c' !! j = Some m'
    /\ Chat.id c' = Chat.id c /\ Message.id m' = Message.id m
    /\ (Chat.id c = chatId -> Message.id m = messageId ->
          m' = Message.with_status (Some st) m)
    /\ (Chat.id c <> chatId \/ Message.id m <> messageId -> m' = m)
    /\ (forall old, Message.status m = Some old ->
          status_forward old st = true ->
          exists new, Message.status m' = Some new
                      /\ status_forward old new = true).
Proof.
  intros Hi Hj s'. subst s'. simpl.
  rewrite map_lookup, Hi. simpl.
  destruct (hasId chatId c) eqn:Hc.
  - eexists _, _. split; [done|]. simpl. rewrite map_lookup, Hj. simpl.
    split; [done|]. split; [done|].
    destruct (msgHasId messageId m) eqn:Hm.
    + repeat split; try done.
      * intros [H|H]; [by apply hasId_false in H; congruence|].
        apply msgHasId_false in H. congruence.
      * intros old Hold Hfw. by exists st.
    + repeat split; try done.
      * intros _ H. apply msgHasId_true in H. congruence.
      * intros old Hold _. exists old. by rewrite status_forward_refl.
  - exists c, m. repeat split; try done.
    + intros H. apply hasId_true in H. congruence.
    + intros old Hold _. exists old. by rewrite status_forward_refl.
Qed.

(** ** Unread messages *)

Lemma withIncoming_id (sel : option string) (m : Message.t) (c : Chat.t) :
  Chat.id (withIncoming sel m c) = Chat.id c.
Proof. unfold withIncoming. by destruct (existsb _ _). Qed.

Lemma onlyChat_intro (C : string) (c : Chat.t) (l : list Chat.t) :
  List.find (hasId C) l = Some c -> countChats C l = 1 -> onlyChat C c l.
Proof.
  intros Hf Hc. destruct (unique_split _ _ _ Hc Hf) as (l1 & l2 & ? & ? & ? & ?).
  by exists l1, l2.
Qed.

Lemma onlyChat_find (C : string) (c : Chat.t) (l : list Chat.t) :
  onlyChat C c l -> List.find (hasId C) l = Some c.
Proof. intros (l1 & l2 & -> & ? & ? & ?). by apply find_split. Qed.

Lemma existsb_app_false {A} (p : A -> bool) (l1 l2 : list A) :
  existsb p l1 = false -> existsb p l2 = false -> existsb p (l1 ++ l2) = false.
Proof. intros H1 H2. by rewrite existsb_app, H1, H2. Qed.

(** One message for a chat that is there once and does not have a message
    of that id. *)
Lemma receive_message_new (initialUser : User.t) (m : Message.t) (C : string)
    (s : App) (c : Chat.t) :
  onlyChat C c (chats s) ->
  existsb (msgHasId (Message.id m)) (Chat.messages c) = false ->
  exists c', on_receive_message initialUser m C s
             = setChats (fun _ => c' :: List.filter (fun d => negb (hasId C d)) (chats s)) s
    /\ onlyChat C c' (c' :: List.filter (fun d => negb (hasId C d)) (chats s))
    /\ Chat.messages c' = Chat.messages c ++ [m]
    /\ Chat.lastMessage c' = Some m
    /\ Chat.unreadCount c' = Some (default 0 (Chat.unreadCount c) + 1).
Proof.
  intros (l1 & l2 & Hl & Hc & H1 & H2) Hnew.
  pose proof Hc as Hid. apply hasId_true in Hid.
  set (c' := withIncoming None m c).
  assert (Hc' : hasId C c' = true).
  { apply hasId_true. subst c'. by rewrite withIncoming_id. }
  assert (Hrest : List.filter (fun d => negb (hasId C d)) (chats s) = l1 ++ l2).
  { rewrite Hl, List.filter_app. simpl. rewrite Hc. simpl.
    by rewrite !filter_negb_all. }
  exists c'. rewrite Hrest. split; [|split].
  - unfold on_receive_message, receiveMessageHandler. simpl.
    assert (He : existsb (hasId C) (chats s) = true).
    { rewrite Hl, existsb_app. simpl. rewrite Hc. apply orb_true_r. }
    rewrite He.
    assert (Hmove : moveToFront C
        (map (fun chat => if hasId C chat
                          then withIncoming None m chat
                          else chat) (chats s)) = c' :: l1 ++ l2).
    { rewrite Hl, (map_split (hasId C)) by done. rewrite Hc. fold c'.
      unfold moveToFront. rewrite findIndex_split by done.
      rewrite list_lookup_middle by done. by rewrite without_index_split. }
    unfold setChats. by rewrite Hmove.
  - exists [], (l1 ++ l2). repeat split; try done.
    by apply existsb_app_false.
  - subst c'. unfold withIncoming. by rewrite Hnew.
Qed.

Lemma receiveAll_new (initialUser : User.t) (C : string)
    (msgs : list Message.t) :
  forall (s : App) (c : Chat.t),
  onlyChat C c (chats s) ->
  NoDup (map Message.id msgs) ->
  (forall m, m ∈ msgs ->
     existsb (msgHasId (Message.id m)) (Chat.messages c) = false) ->
  let s' := receiveAll initialUser msgs C s in
  exists c', onlyChat C c' (chats s')
    /\ Chat.messages c' = Chat.messages c ++ msgs
    /\ Chat.unreadCount c'
       = match msgs with
         | [] => Chat.unreadCount c
         | _ => Some (default 0 (Chat.unreadCount c) + length msgs)
         end
    /\ emitted s' = emitted s /\ selectedChatId s' = selectedChatId s
    /\ currentUser s' = currentUser s /\ socket s' = socket s.
Proof.
  induction msgs as [|m msgs IH]; intros s c Honly Hnd Hnew; simpl.
  - exists c. by rewrite app_nil_r.
  - apply NoDup_cons in Hnd as [Hm Hnd].
    destruct (receive_message_new initialUser m C s c Honly) as
      (c1 & Heq & Honly1 & Hmsgs1 & _ & Hunread1).
    { apply Hnew. by left. }
    rewrite Heq.
    edestruct (IH (setChats (fun _ => c1 :: List.filter (fun d => negb (hasId C d)) (chats s)) s) c1)
      as (c' & Honly' & Hmsgs' & Hunread' & He & Hs & Hu & Hk); try done.
    { intros m' Hin. rewrite Hmsgs1, existsb_app. simpl.
      rewrite (Hnew m') by by right. simpl. rewrite orb_false_r.
      apply String.eqb_neq. intros Heq'. apply Hm.
      rewrite Heq'. apply list_elem_of_In, in_map. by apply list_elem_of_In. }
    exists c'. split; [done|]. split.
    { rewrite Hmsgs', Hmsgs1, <- app_assoc. done. }
    split; [|done].
    rewrite Hunread', Hunread1. simpl. destruct msgs; simpl; f_equal; lia.
Qed.

Lemma flat_map_none {A B} (g : A -> bool) (p : A -> bool) (e : B) (l : list A) :
  (forall x, g x = true -> p x = true) -> existsb p l = false ->
  flat_map (fun x => if g x then [e] else []) l = [].
Proof.
  intros Hg. induction l as [|x l IH]; simpl; [done|].
  destruct (p x) eqn:Hp; [done|]. simpl. intros Hl.
  destruct (g x) eqn:Hx; [|auto]. apply Hg in Hx. congruence.
Qed.

Lemma hasUnread_hasId (C : string) (cu : option User.t) (c : Chat.t) :
  hasUnread C cu c = true -> hasId C c = true.
Proof. unfold hasUnread. by intros [[? _]%andb_prop _]%andb_prop. Qed.

(** Selecting a chat that is there once and has unread messages. *)
Lemma select_unread (C : string) (s : App) (c : Chat.t) (u : User.t) (n : nat) :
  onlyChat C c (chats s) -> Chat.unreadCount c = Some (S n) ->
  socket s = true -> currentUser s = Some u ->
  let s' := handleSelectChat C s in
  onlyChat C (Chat.with_unreadCount (Some 0) c) (chats s')
  /\ emitted s' = emitted s ++ [mark_as_read C (User.id u)]
  /\ selectedChatId s' = Some C.
Proof.
  intros (l1 & l2 & Hl & Hc & H1 & H2) Hn Hsock Hu.
  assert (Hun : hasUnread C (Some u) c = true).
  { unfold hasUnread. by rewrite Hc, Hn. }
  assert (Hr : readReceipts C s = [mark_as_read C (User.id u)]).
  { unfold readReceipts. rewrite Hsock, Hu, Hl, flat_map_app. simpl.
    rewrite Hun.
    rewrite !(flat_map_none _ (hasId C)); try done;
      apply hasUnread_hasId. }
  unfold handleSelectChat. rewrite Hr, Hu. simpl.
  split; [|done].
  exists l1, l2. split; [|done].
  rewrite Hl, map_app. simpl. rewrite Hun.
  assert (Hid : forall l, existsb (hasId C) l = false ->
    map (fun chat => if hasUnread C (Some u) chat
                     then Chat.with_unreadCount (Some 0) chat else chat) l = l).
  { clear. induction l as [|d l IH]; simpl; [done|].
    destruct (hasId C d) eqn:Hd; [done|]. intros Hl.
    unfold hasUnread at 1. rewrite Hd. simpl. by rewrite IH. }
  by rewrite !Hid.
Qed.

(** Selecting a chat that has nothing unread changes no chat and sends
    nothing: the test [chat.unreadCount > 0] guards both. *)
Lemma select_nothing_unread (C : string) (s : App) :
  (forall c, c ∈ chats s -> Chat.id c = C ->
     default 0 (Chat.unreadCount c) = 0) ->
  chats (handleSelectChat C s) = chats s
  /\ emitted (handleSelectChat C s) = emitted s.
Proof.
  intros Hall.
  assert (Hno : forall c, c ∈ chats s -> hasUnread C (currentUser s) c = false).
  { intros c Hin. unfold hasUnread. destruct (hasId C c) eqn:Hc; [|done].
    apply hasId_true in Hc. specialize (Hall c Hin Hc).
    destruct (Chat.unreadCount c) as [[|n]|]; simpl in *; [done|lia|done]. }
  assert (Hr : readReceipts C s = []).
  { unfold readReceipts. destruct (socket s); [|done].
    destruct (currentUser s) as [u|] eqn:Hu; [|done].
    induction (chats s) as [|c l IH]; simpl; [done|].
    rewrite Hno by by left. simpl. apply IH.
    - intros d Hin. apply Hall. by right.
    - intros d Hin. apply Hno. by right. }
  unfold handleSelectChat. rewrite Hr. simpl. split; [|done].
  induction (chats s) as [|c l IH]; simpl; [done|].
  rewrite Hno by by left. f_equal. apply IH.
  - intros d Hin. apply Hall. by right.
  - intros d Hin. apply Hno. by right.
Qed.

Lemma state_after_select (C : string) (s : App) :
  currentUser (handleSelectChat C s) = currentUser s
  /\ socket (handleSelectChat C s) = socket s
  /\ selectedChatId (handleSelectChat C s) = Some C
  /\ view (handleSelectChat C s) = view_chats
  /\ toasts (handleSelectChat C s) = toasts s.
Proof.
  unfold handleSelectChat.
  assert (Hem : forall (es : list ClientEvent) (a : App),
    let a' := fold_left (fun s0 e => emit e s0) es a in
    currentUser a' = currentUser a /\ socket a' = socket a
    /\ selectedChatId a' = selectedChatId a /\ toasts a' = toasts a).
  { induction es as [|e es IH]; intros a; simpl; [done|].
    destruct (IH (emit e a)) as (? & ? & ? & ?). done. }
  simpl.
  destruct (Hem (readReceipts C s)
              (setChats (map (fun chat =>
                 if hasUnread C (currentUser s) chat
                 then Chat.with_unreadCount (Some 0) chat else chat))
                 (setSelectedChatId (Some C) s))) as (? & ? & ? & ?).
  done.
Qed.

(** C6, as the code has it. A chat [C] that is in the store once and is
    not the selected chat receives the messages [msgs], of ids that are
    distinct and new to the chat: its [unreadCount] goes up by one for each
    of them, from what it was before ([undefined] counting as 0) to that
    plus the number of messages, and nothing goes to the server. Selecting
    [C] after that leaves it with no unread message and sends one
    [mark_as_read] when the count was above 0, and nothing when it was 0. *)
Theorem unread_accounting (initialUser : User.t) (C : string)
    (msgs : list Message.t) (s : App) (c : Chat.t) (u : User.t) :
  findChat C s = Some c -> countChats C (chats s) = 1 ->
  selectedChatId s <> Some C ->
  NoDup (map Message.id msgs) ->
  (forall m, m ∈ msgs -> countMessages (Message.id m) (Chat.messages c) = 0) ->
  socket s = true -> currentUser s = Some u ->
  let before := default 0 (Chat.unreadCount c) in
  let s1 := receiveAll initialUser msgs C s in
  let s2 := handleSelectChat C s1 in
  (exists c1, findChat C s1 = Some c1 /\ countChats C (chats s1) = 1
     /\ Chat.unreadCount c1
        = match msgs with
          | [] => Chat.unreadCount c
          | _ => Some (before + length msgs)
          end
     /\ default 0 (Chat.unreadCount c1) = before + length msgs
     /\ Chat.messages c1 = Chat.messages c ++ msgs)
  /\ emitted s1 = emitted s
  /\ (exists c2, findChat C s2 = Some c2
        /\ default 0 (Chat.unreadCount c2) = 0
        /\ (0 < before + length msgs -> Chat.unreadCount c2 = Some 0))
  /\ emitted s2
     = emitted s1 ++ (if Nat.ltb 0 (before + length msgs)
                      then [mark_as_read C (User.id u)] else [])
  /\ selectedChatId s2 = Some C.
Proof.
  intros Hf Hcount _ Hnd Hnew Hsock Hu before s1 s2.
  destruct (receiveAll_new initialUser C msgs s c) as
    (c1 & Honly & Hmsgs & Hunread & He & _ & Hu1 & Hsock1); try done.
  { by apply onlyChat_intro. }
  { intros m Hin. specialize (Hnew m Hin). unfold countMessages in Hnew.
    destruct (existsb _ _) eqn:Hex; [|done].
    apply existsb_exists in Hex as (x & Hin' & Hx).
    assert (In x (List.filter (msgHasId (Message.id m)) (Chat.messages c)))
      by by apply List.filter_In.
    destruct (List.filter _ (Chat.messages c)); [done|]. simpl in Hnew. lia. }
  fold s1 in Honly, He, Hu1, Hsock1. fold before in Hunread.
  assert (Hd : default 0 (Chat.unreadCount c1) = before + length msgs).
  { rewrite Hunread. destruct msgs; simpl; [subst before; lia|done]. }
  assert (Hfind1 : findChat C s1 = Some c1) by by apply onlyChat_find.
  assert (Hcount1 : countChats C (chats s1) = 1).
  { destruct Honly as (l1 & l2 & -> & ? & ? & ?). unfold countChats.
    by rewrite filter_split. }
  split; [by exists c1|]. split; [done|].
  destruct (before + length msgs) as [|n] eqn:Hn.
  - destruct (select_nothing_unread C s1) as (Hch & Hem).
    { intros d Hin Hid. destruct Honly as (l1 & l2 & Hl & Hc & H1 & H2).
      rewrite Hl in Hin. apply elem_of_app in Hin as [Hin|Hin].
      - apply list_elem_of_In in Hin.
        assert (existsb (hasId C) l1 = true); [|congruence].
        apply existsb_exists. exists d. split; [done|]. by apply hasId_true.
      - apply elem_of_cons in Hin as [->|Hin]; [done|].
        apply list_elem_of_In in Hin.
        assert (existsb (hasId C) l2 = true); [|congruence].
        apply existsb_exists. exists d. split; [done|]. by apply hasId_true. }
    fold s2 in Hch, Hem. split; [|split].
    + exists c1. unfold findChat. rewrite Hch. split; [done|].
      split; [done|lia].
    + rewrite Hem. simpl. by rewrite app_nil_r.
    + apply state_after_select.
  - assert (Hsome : Chat.unreadCount c1 = Some (S n)).
    { destruct (Chat.unreadCount c1); simpl in Hd; [by subst|done]. }
    destruct (select_unread C s1 c1 u _ Honly Hsome) as (Honly2 & He2 & Hsel2).
    { by rewrite Hsock1. }
    { by rewrite Hu1. }
    fold s2 in Honly2, He2, Hsel2.
    split; [|done].
    eexists. split; [by apply onlyChat_find|]. done.
Qed.

(** ** Acknowledgement and broadcast of the same message *)

Lemma receive_message_chats (initialUser : User.t) (m : Message.t)
    (C : string) (s : App) (c : Chat.t) :
  onlyChat C c (chats s) ->
  chats (on_receive_message initialUser m C s)
  = withIncoming None m c
    :: List.filter (fun d => negb (hasId C d)) (chats s).
Proof.
  intros (l1 & l2 & Hl & Hc & H1 & H2).
  set (c' := withIncoming None m c).
  assert (Hc' : hasId C c' = true).
  { apply hasId_true. subst c'. rewrite withIncoming_id. by apply hasId_true. }
  assert (He : existsb (hasId C) (chats s) = true).
  { rewrite Hl, existsb_app. simpl. rewrite Hc. apply orb_true_r. }
  unfold on_receive_message, receiveMessageHandler. rewrite He.
  simpl; rewrite Hl, (map_split (hasId C)) by done; rewrite Hc; fold c';
    unfold moveToFront; rewrite findIndex_split by done;
    rewrite list_lookup_middle by done; rewrite without_index_split;
    rewrite List.filter_app; simpl; rewrite Hc; simpl;
    by rewrite !filter_negb_all.
Qed.

Lemma sendMessageAck_success_chats (C L K : string) (ack : MessageAck.t) (s : App) :
  MessageAck.success ack = true -> MessageAck.messageId ack = Some K ->
  K <> "" ->
  chats (sendMessageAck C L ack s)
  = map (fun chat => if hasId C chat then confirmIn L K chat else chat) (chats s).
Proof.
  intros Hs HK Hne. unfold sendMessageAck. rewrite Hs, HK. simpl.
  apply String.eqb_neq in Hne. by rewrite Hne.
Qed.

Lemma countMessages_app (K : string) (l1 l2 : list Message.t) :
  countMessages K (l1 ++ l2) = countMessages K l1 + countMessages K l2.
Proof. unfold countMessages. by rewrite List.filter_app, length_app. Qed.

Lemma countMessages_existsb (K : string) (l : list Message.t) :
  existsb (msgHasId K) l = negb (Nat.eqb (countMessages K l) 0).
Proof.
  unfold countMessages. induction l as [|x l IH]; simpl; [done|].
  by destruct (msgHasId K x).
Qed.

(** The messages of id [K] after the renaming: those that had the id and
    those that had the id [L]. *)
Lemma countMessages_confirmed (L K : string) (l : list Message.t) :
  K <> L ->
  countMessages K (map (confirmed L K) l) = countMessages K l + countMessages L l.
Proof.
  intros Hne. unfold countMessages.
  induction l as [|x l IH]; simpl; [done|].
  unfold confirmed at 1. destruct (msgHasId L x) eqn:HL.
  - assert (HK : msgHasId K x = false).
    { apply msgHasId_false. apply msgHasId_true in HL. congruence. }
    rewrite HK. unfold msgHasId at 1. simpl. rewrite String.eqb_refl.
    simpl. rewrite IH. lia.
  - destruct (msgHasId K x); simpl; rewrite IH; lia.
Qed.

(** The acknowledgement first: the broadcast finds the confirmed id in the
    list and is dropped. This holds for every store. *)
Lemma ack_then_broadcast_once (initialUser : User.t) (C L K : string)
    (ack : MessageAck.t) (m : Message.t) (s : App) (c : Chat.t) :
  MessageAck.success ack = true -> MessageAck.messageId ack = Some K ->
  K <> "" ->
  findChat C s = Some c -> countChats C (chats s) = 1 ->
  countMessages L (Chat.messages c) = 1 ->
  countMessages K (Chat.messages c) = 0 ->
  Message.id m = K ->
  exists c', findChat C (on_receive_message initialUser m C
                           (sendMessageAck C L ack s)) = Some c'
             /\ countMessages K (Chat.messages c') = 1.
Proof.
  intros Hs HK Hne Hf Hcount HL H0 Hm.
  assert (HKL : K <> L) by (intros ->; lia).
  destruct (unique_split _ _ _ Hcount Hf) as (l1 & l2 & Hl & Hc & H1 & H2).
  pose proof (sendMessageAck_success_chats C L K ack s Hs HK Hne) as Hack.
  rewrite Hl, (map_split (hasId C)) in Hack by done. rewrite Hc in Hack.
  set (c1 := confirmIn L K c) in *.
  assert (Hc1 : hasId C c1 = true) by done.
  assert (Honly : onlyChat C c1 (chats (sendMessageAck C L ack s))).
  { exists l1, l2. by rewrite Hack. }
  assert (Hk1 : countMessages K (Chat.messages c1) = 1).
  { subst c1. rewrite confirmIn_messages, countMessages_confirmed by done. lia. }
  exists c1. split; [|done].
  unfold findChat. rewrite (receive_message_chats initialUser m C _ c1 Honly).
  simpl.
  unfold withIncoming. rewrite Hm, countMessages_existsb, Hk1. simpl.
  by rewrite Hc1.
Qed.

(** The broadcast first: it is appended, and the acknowledgement renames the
    local entry to the id the broadcast has. This holds for every store. *)
Lemma broadcast_then_ack_twice (initialUser : User.t) (C L K : string)
    (ack : MessageAck.t) (m : Message.t) (s : App) (c : Chat.t) :
  MessageAck.success ack = true -> MessageAck.messageId ack = Some K ->
  K <> "" ->
  findChat C s = Some c -> countChats C (chats s) = 1 ->
  countMessages L (Chat.messages c) = 1 ->
  countMessages K (Chat.messages c) = 0 ->
  Message.id m = K ->
  exists c', findChat C (sendMessageAck C L ack
                           (on_receive_message initialUser m C s)) = Some c'
             /\ countMessages K (Chat.messages c') = 2.
Proof.
  intros Hs HK Hne Hf Hcount HL H0 Hm.
  assert (HKL : K <> L) by (intros ->; lia).
  pose proof (onlyChat_intro C c _ Hf Hcount) as Honly.
  pose proof (receive_message_chats initialUser m C s c Honly) as Hrecv.
  set (c1 := withIncoming None m c) in *.
  assert (Hc1 : hasId C c1 = true).
  { apply hasId_true. subst c1. rewrite withIncoming_id.
    destruct Honly as (_ & _ & _ & Hc & _). by apply hasId_true. }
  assert (Hm1 : Chat.messages c1 = Chat.messages c ++ [m]).
  { subst c1. unfold withIncoming.
    by rewrite Hm, countMessages_existsb, H0. }
  exists (confirmIn L K c1). split.
  - unfold findChat.
    rewrite (sendMessageAck_success_chats C L K ack _ Hs HK Hne), Hrecv.
    simpl. rewrite Hc1. simpl.
    change (hasId C (confirmIn L K c1)) with (hasId C c1). by rewrite Hc1.
  - rewrite confirmIn_messages, countMessages_confirmed, Hm1 by done.
    rewrite !countMessages_app, H0, HL. unfold countMessages. simpl.
    unfold msgHasId. rewrite Hm, String.eqb_refl.
    apply String.eqb_neq in HKL. by rewrite HKL.
Qed.


(** ** The scenarios of the specification, on the session [Scenario] *)

(** C1: a ['delivered'] update that arrives when the message is ['read']
    leaves it ['delivered'], a step backwards. *)
Lemma status_update_regresses :
  let s' := on_message_status_update "c2" "m1" delivered Scenario.app in
  (Message.status <$> findMessage "c2" "m1" Scenario.app) = Some (Some read)
  /\ (Message.status <$> findMessage "c2" "m1" s') = Some (Some delivered)
  /\ (Message.status <$> findMessage "c2" "m1" s') <> Some (Some read)
  /\ status_forward read delivered = false.
Proof. repeat split. discriminate. Qed.

Lemma status_update_overwrites_witness :
  let m := Message.mk "m42" Scenario.alice "hi" 2000 text (Some delivered) None in
  let s' := on_message_status_update "c1" "m42" read Scenario.confirmedAs42 in
  findMessage "c1" "m42" Scenario.confirmedAs42 = Some m
  /\ exists c' m',
       chats s' !! 0 = Some c' /\ Chat.messages c' !! 0 = Some m'
       /\ m' = Message.with_status (Some read) m
       /\ exists new, Message.status m' = Some new
                      /\ status_forward delivered new = true.
Proof.
  intros m s'. split; [reflexivity|].
  pose (c := confirmIn Scenario.tempId "m42" (sentInto
    (newMessage Scenario.tempId 2000 Scenario.alice "hi" text) Scenario.c1)).
  destruct (status_update_overwrites "c1" "m42" read Scenario.confirmedAs42
              0 0 c m eq_refl eq_refl)
    as (c' & m' & H1 & H2 & _ & _ & H3 & _ & H4).
  exists c', m'. split; [exact H1|]. split; [exact H2|].
  split; [exact (H3 eq_refl eq_refl)|].
  exact (H4 delivered eq_refl eq_refl).
Defined.

(** C3: the message [handleSendMessage] appends has the status ['sent'],
    not ['pending']. *)
Lemma sent_message_is_not_pending :
  findMessage "c1" Scenario.tempId Scenario.sending
  = Some (Message.mk Scenario.tempId Scenario.alice "hi" 2000 text (Some sent) None)
  /\ (Message.status <$> findMessage "c1" Scenario.tempId Scenario.sending)
     <> Some (Some pending).
Proof. split; [reflexivity | discriminate]. Qed.

Lemma send_appends_sent_message_witness :
  socket Scenario.app = true
  /\ currentUser Scenario.app = Some Scenario.alice
  /\ findChat "c1" Scenario.app = Some Scenario.c1
  /\ Scenario.tempId = tempIdOf 2000 "k3j9x2a"
  /\ exists c' m i,
       chats Scenario.sending !! 0 = Some c'
       /\ Chat.id c' = "c1"
       /\ Chat.messages c' = Chat.messages Scenario.c1 ++ [m]
       /\ Chat.lastMessage c' = Some m
       /\ Message.id m = Scenario.tempId
       /\ String.prefix "temp_" (Message.id m) = true
       /\ Message.status m = Some sent
       /\ chats Scenario.sending = c' :: without_index i (chats Scenario.app).
Proof.
  split; [reflexivity|]. split; [reflexivity|]. split; [reflexivity|].
  split; [reflexivity|].
  destruct (send_appends_sent_message 2000 "k3j9x2a" 2000 "c1" "hi" text
              Scenario.app Scenario.alice Scenario.c1 eq_refl eq_refl eq_refl)
    as (c' & m & i & H0 & _ & Hid & Hm & Hl & Hi & Hp & Hs & _ & _ & _ & _ & _
        & _ & Hr).
  exists c', m, i. repeat split; assumption.
Defined.

(** C4: after the failure acknowledgement the message has no status, not
    ['failed'], and the chat has no [lastMessage] any more. *)
Lemma failed_send_has_no_status :
  let s' := sendMessageAck "c1" Scenario.tempId Scenario.ackOffline Scenario.sending in
  (Chat.lastMessage <$> findChat "c1" Scenario.sending)
  = Some (findMessage "c1" Scenario.tempId Scenario.sending)
  /\ findMessage "c1" Scenario.tempId s'
     = Some (Message.mk Scenario.tempId Scenario.alice "hi" 2000 text None
               (Some "offline"))
  /\ (Message.status <$> findMessage "c1" Scenario.tempId s')
     <> Some (Some failed)
  /\ (Chat.lastMessage <$> findChat "c1" s') = Some None
  /\ (Chat.lastMessage <$> findChat "c1" s')
     <> Some (findMessage "c1" Scenario.tempId s').
Proof. repeat split; discriminate. Qed.

Lemma failure_ack_marks_error_witness :
  MessageAck.success Scenario.ackOffline
    && truthy (MessageAck.messageId Scenario.ackOffline) = false
  /\ exists c m c' m',
       chats Scenario.sending !! 0 = Some c /\ Chat.id c = "c1"
       /\ Chat.messages c !! 0 = Some m /\ Message.id m = Scenario.tempId
       /\ chats (sendMessageAck "c1" Scenario.tempId Scenario.ackOffline
                   Scenario.sending) !! 0 = Some c'
       /\ Chat.messages c' !! 0 = Some m'
       /\ Message.id m' = Scenario.tempId /\ Message.status m' = None
       /\ Message.error m' = Some "offline"
       /\ Chat.lastMessage c' = None.
Proof.
  split; [reflexivity|].
  pose (m := newMessage Scenario.tempId 2000 Scenario.alice "hi" text).
  pose (c := sentInto m Scenario.c1).
  destruct (failure_ack_marks_error "c1" Scenario.tempId Scenario.ackOffline
              Scenario.sending 0 0 c m eq_refl eq_refl eq_refl eq_refl eq_refl)
    as (c' & m' & H1 & H2 & _ & Hid & Hst & Herr & _ & _ & _ & _ & Hlast & _).
  exists c, m, c', m'.
  repeat (split; [first [reflexivity | assumption]|]).
  destruct (Hlast m eq_refl eq_refl) as [Hl _]. exact Hl.
Defined.

(** C5: the success acknowledgement changes the status of the message as
    well, from ['sent'] to ['delivered']: the confirmed message is not the
    sent one under its new id. *)
Lemma success_ack_changes_status :
  let s' := sendMessageAck "c1" Scenario.tempId Scenario.ackOk Scenario.sending in
  (Message.status <$> findMessage "c1" Scenario.tempId Scenario.sending)
  = Some (Some sent)
  /\ (Message.status <$> findMessage "c1" "m42" s') = Some (Some delivered)
  /\ findMessage "c1" "m42" s'
     <> (Message.with_id "m42" <$> findMessage "c1" Scenario.tempId Scenario.sending).
Proof. repeat split. discriminate. Qed.

Lemma success_ack_confirms_witness :
  MessageAck.success Scenario.ackOk = true
  /\ MessageAck.messageId Scenario.ackOk = Some "m42"
  /\ "m42" <> ""
  /\ exists c m c' m',
       chats Scenario.sending !! 0 = Some c /\ Chat.id c = "c1"
       /\ Chat.messages c !! 0 = Some m /\ Message.id m = Scenario.tempId
       /\ chats (sendMessageAck "c1" Scenario.tempId Scenario.ackOk
                   Scenario.sending) !! 0 = Some c'
       /\ Chat.messages c' !! 0 = Some m'
       /\ Message.id m' = "m42" /\ Message.status m' = Some delivered
       /\ Message.content m' = Message.content m
       /\ Chat.lastMessage c' = Some m'.
Proof.
  split; [reflexivity|]. split; [reflexivity|].
  assert (Hne : "m42" <> "") by discriminate.
  split; [exact Hne|].
  pose (m := newMessage Scenario.tempId 2000 Scenario.alice "hi" text).
  pose (c := sentInto m Scenario.c1).
  destruct (success_ack_confirms "c1" Scenario.tempId "m42" Scenario.ackOk
              Scenario.sending 0 0 c m eq_refl eq_refl Hne
              eq_refl eq_refl eq_refl eq_refl)
    as (c' & m' & H1 & H2 & _ & Hid & Hst & Hco & _ & _ & _ & _ & _ & _
        & Hlast & _).
  exists c, m, c', m'.
  repeat (split; [first [reflexivity | assumption]|]).
  destruct (Hlast m eq_refl eq_refl) as [_ Hl]. exact (Hl eq_refl eq_refl).
Defined.

(** C6: the three messages that arrive for [c3], which has three unread
    messages already, leave it with six, not three; and selecting [c1]
    when no message has arrived for it sends no [mark_as_read]. *)
Lemma unread_count_adds_to_prior :
  let s1 := receiveAll Scenario.alice Scenario.incoming "c3" Scenario.app in
  let s0 := receiveAll Scenario.alice [] "c1" Scenario.app in
  selectedChatId Scenario.app = Some "c2"
  /\ (Chat.unreadCount <$> findChat "c3" Scenario.app) = Some (Some 3)
  /\ length Scenario.incoming = 3
  /\ (Chat.unreadCount <$> findChat "c3" s1) = Some (Some 6)
  /\ (Chat.unreadCount <$> findChat "c3" s1)
     <> Some (Some (length Scenario.incoming))
  /\ emitted (handleSelectChat "c1" s0) = emitted s0
  /\ emitted (handleSelectChat "c1" s0)
     <> emitted s0 ++ [mark_as_read "c1" "user1"].
Proof. repeat split; discriminate. Qed.

Lemma unread_accounting_witness :
  let s1 := receiveAll Scenario.alice Scenario.incoming "c3" Scenario.app in
  let s2 := handleSelectChat "c3" s1 in
  findChat "c3" Scenario.app = Some Scenario.c3
  /\ Chat.unreadCount Scenario.c3 = Some 3
  /\ selectedChatId Scenario.app <> Some "c3"
  /\ (exists c1, findChat "c3" s1 = Some c1 /\ Chat.unreadCount c1 = Some 6)
  /\ (exists c2, findChat "c3" s2 = Some c2 /\ Chat.unreadCount c2 = Some 0)
  /\ emitted s2 = emitted s1 ++ [mark_as_read "c3" "user1"].
Proof.
  intros s1 s2.
  assert (Hsel : selectedChatId Scenario.app <> Some "c3") by discriminate.
  assert (Hnd : NoDup (map Message.id Scenario.incoming)).
  { apply (bool_decide_unpack _). vm_compute. exact I. }
  assert (Hnew : forall m, m ∈ Scenario.incoming ->
            countMessages (Message.id m) (Chat.messages Scenario.c3) = 0).
  { intros m _. reflexivity. }
  destruct (unread_accounting Scenario.alice "c3" Scenario.incoming Scenario.app
              Scenario.c3 Scenario.alice eq_refl eq_refl Hsel Hnd Hnew
              eq_refl eq_refl)
    as ((c1 & Hf1 & _ & Hu1 & _) & _ & (c2 & Hf2 & _ & Hu2) & He & _).
  split; [reflexivity|]. split; [reflexivity|]. split; [exact Hsel|].
  split; [exists c1; split; assumption|].
  split; [exists c2; split; [exact Hf2 | apply Hu2; simpl; lia]|].
  exact He.
Defined.

Lemma group_ack_and_broadcast_once_witness :
  let ack := GroupAck.mk true (Some Scenario.g1) None in
  Chat.id Scenario.g1 = "g1"
  /\ countChats "g1"
       (chats (createGroupAck ack (on_group_created Scenario.g1 Scenario.app))) = 1
  /\ countChats "g1"
       (chats (on_group_created Scenario.g1 (createGroupAck ack Scenario.app))) = 1.
Proof.
  split; [reflexivity|].
  exact (group_ack_and_broadcast_once "g1" Scenario.g1 Scenario.g1 None
           Scenario.app eq_refl eq_refl).
Defined.


(** C9: Eve, whose id is [constructor], is not in the online snapshot of the
    reconnect, and the user list has her online after it: the lookup
    [data.onlineUsers[u.id]] finds the property every object inherits under
    that name. Bob, who is not in the snapshot either, is offline in the
    user list and still online in the copies the chats of the payload
    have of him. *)
Lemma reconnect_marks_inherited_name_online :
  let s1 := on_disconnect "transport close" Scenario.app in
  let s2 := on_initial_data Scenario.alice Scenario.snapshotWithEve s1 in
  InitialData.onlineUsers Scenario.snapshotWithEve !! "constructor" = None
  /\ InitialData.onlineUsers Scenario.snapshotWithEve !! "user2" = None
  /\ availableUsers s2
     = [ Scenario.alice; User.with_isOnline false Scenario.bob;
         User.with_isOnline true Scenario.eve ]
  /\ (User.isOnline <$> List.find (fun u => User.id u === "constructor")
                          (availableUsers s2)) = Some true
  /\ (User.isOnline <$> List.find (fun u => User.id u === "constructor")
                          (availableUsers s2)) <> Some false
  /\ (Chat.participants <$> findChat "c1" s2)
     = Some [Scenario.alice; Scenario.bob]
  /\ User.isOnline Scenario.bob = true.
Proof. repeat split; discriminate. Qed.

Lemma reconnect_presence_witness :
  let s1 := on_disconnect "transport close" Scenario.app in
  let s2 := on_initial_data Scenario.alice Scenario.snapshot s1 in
  "transport close" <> "io client disconnect"
  /\ InitialData.onlineUsers Scenario.snapshot !! "user2" = None
  /\ ("user2" ∉ inheritedKeys)
  /\ Scenario.bob ∈ availableUsers Scenario.app
  /\ chats s1 = []
  /\ availableUsers s1 = initialAvailableUsers
  /\ User.with_isOnline false Scenario.bob ∈ availableUsers s2
  /\ (exists u, u ∈ availableUsers s2 /\ User.id u = "user1")
  /\ chats s2 ≡ₚ InitialData.chats Scenario.snapshot.
Proof.
  intros s1 s2.
  assert (Hr : "transport close" <> "io client disconnect") by discriminate.
  assert (Hoff : InitialData.onlineUsers Scenario.snapshot !! "user2" = None)
    by reflexivity.
  assert (Hown : "user2" ∉ inheritedKeys).
  { apply (bool_decide_unpack _). vm_compute. exact I. }
  assert (Hne : "user2" <> User.id Scenario.alice) by discriminate.
  destruct (reconnect_presence Scenario.alice "transport close"
              Scenario.snapshot "user2" Scenario.app Hr Hoff Hown Hne)
    as (Hc & _ & Hu & _ & Hbob & _ & Hself & _ & Hperm).
  split; [exact Hr|]. split; [exact Hoff|]. split; [exact Hown|].
  split; [right; left|].
  split; [exact Hc|]. split; [exact Hu|].
  split; [|split; [exact Hself | exact Hperm]].
  apply (Hbob Scenario.bob); [right; left | reflexivity].
Defined.

Lemma send_resets_unread_silently_witness :
  let s' := handleSendMessage "temp_2500_q1w2e3r" 2500 "c3" "hey" text Scenario.app in
  findChat "c3" Scenario.app = Some Scenario.c3
  /\ Chat.unreadCount Scenario.c3 = Some 3
  /\ selectedChatId Scenario.app = Some "c2"
  /\ (exists c', findChat "c3" s' = Some c' /\ Chat.unreadCount c' = Some 0)
  /\ emitted s'
     = emitted Scenario.app
       ++ [send_message "c3"
             (newMessage "temp_2500_q1w2e3r" 2500 Scenario.alice "hey" text)].
Proof.
  intros s'.
  destruct (send_resets_unread_silently "temp_2500_q1w2e3r" 2500 "c3" "hey" text
              Scenario.app Scenario.alice Scenario.c3 eq_refl eq_refl eq_refl)
    as ((c' & Hf & Hu & _) & He & _).
  do 3 (split; [reflexivity|]).
  split; [exists c'; split; assumption | exact He].
Defined.

(** * Further properties *)

(** ** More on lists *)

Lemma first_split {A} (p : A -> bool) (l : list A) :
  existsb p l = true ->
  exists l1 x l2, l = l1 ++ x :: l2 /\ existsb p l1 = false /\ p x = true.
Proof.
  induction l as [|y l IH]; simpl; [done|].
  destruct (p y) eqn:Hy.
  - intros _. by exists [], y, l.
  - simpl. intros H. destruct (IH H) as (l1 & x & l2 & -> & H1 & Hx).
    exists (y :: l1), x, l2. simpl. by rewrite Hy.
Qed.

Lemma existsb_findIndex {A} (p : A -> bool) (l : list A) :
  existsb p l = false -> findIndex p l = None.
Proof.
  induction l as [|y l IH]; simpl; [done|].
  destruct (p y); [done|]. simpl. intros H. by rewrite IH.
Qed.

Lemma find_none_existsb {A} (p : A -> bool) (l : list A) :
  List.find p l = None -> existsb p l = false.
Proof.
  induction l as [|y l IH]; simpl; [done|].
  destruct (p y); [done|]. auto.
Qed.

Lemma moveToFront_split (C : string) (l1 : list Chat.t) (c : Chat.t)
    (l2 : list Chat.t) :
  existsb (hasId C) l1 = false -> hasId C c = true ->
  moveToFront C (l1 ++ c :: l2) = c :: l1 ++ l2.
Proof.
  intros H1 Hc. unfold moveToFront. rewrite findIndex_split by done.
  rewrite list_lookup_middle by done. by rewrite without_index_split.
Qed.

Lemma moveToFront_none (C : string) (l : list Chat.t) :
  existsb (hasId C) l = false -> moveToFront C l = l.
Proof. intros H. unfold moveToFront. by rewrite existsb_findIndex. Qed.

Lemma moveToFront_head (C : string) (c : Chat.t) (l : list Chat.t) :
  hasId C c = true -> moveToFront C (c :: l) = c :: l.
Proof. intros Hc. by apply (moveToFront_split C [] c l). Qed.

(** Moving to the front commutes with a function that keeps the ids. *)
Lemma moveToFront_map (C : string) (f : Chat.t -> Chat.t) (l : list Chat.t) :
  (forall c, Chat.id (f c) = Chat.id c) ->
  moveToFront C (map f l) = map f (moveToFront C l).
Proof.
  intros Hf.
  assert (Hh : forall c, hasId C (f c) = hasId C c).
  { intros c. unfold hasId. by rewrite Hf. }
  assert (He : forall l', existsb (hasId C) (map f l') = existsb (hasId C) l').
  { induction l' as [|c l' IH]; simpl; [done|]. by rewrite Hh, IH. }
  destruct (existsb (hasId C) l) eqn:Hl.
  - destruct (first_split _ _ Hl) as (l1 & c & l2 & -> & H1 & Hc).
    rewrite map_app. simpl.
    rewrite !moveToFront_split; try done.
    + simpl. by rewrite map_app.
    + by rewrite He.
    + by rewrite Hh.
  - rewrite !moveToFront_none; try done. by rewrite He.
Qed.

(** ** Incoming messages: unknown chats, duplicates, order *)

Lemma chats_on_receive_message (initialUser : User.t) (m : Message.t)
    (C : string) (s : App) :
  chats (on_receive_message initialUser m C s)
  = if existsb (hasId C) (chats s)
    then moveToFront C
           (map (fun chat => if hasId C chat
                             then withIncoming None m chat
                             else chat) (chats s))
    else chats s.
Proof.
  unfold on_receive_message, receiveMessageHandler. simpl.
  by destruct (existsb (hasId C) (chats s)).
Qed.

Lemma selectedChatId_on_receive_message (initialUser : User.t) (m : Message.t)
    (C : string) (s : App) :
  selectedChatId (on_receive_message initialUser m C s) = selectedChatId s.
Proof.
  unfold on_receive_message, receiveMessageHandler. simpl.
  by destruct (existsb (hasId C) (chats s)).
Qed.

Lemma emitted_on_receive_message (initialUser : User.t) (m : Message.t)
    (C : string) (s : App) :
  emitted (on_receive_message initialUser m C s)
  = if existsb (hasId C) (chats s) then emitted s
    else emitted s ++ [request_initial_data].
Proof.
  unfold on_receive_message, receiveMessageHandler. simpl.
  by destruct (existsb (hasId C) (chats s)).
Qed.

Lemma withIncoming_idemp (sel : option string) (m : Message.t) (c : Chat.t) :
  withIncoming sel m (withIncoming sel m c) = withIncoming sel m c.
Proof.
  unfold withIncoming at 2.
  destruct (existsb _ (Chat.messages c)) eqn:He.
  - unfold withIncoming. by rewrite He.
  - assert (Hm : msgHasId (Message.id m) m = true) by apply String.eqb_refl.
    unfold withIncoming. simpl. rewrite existsb_app. simpl.
    by rewrite Hm, He.
Qed.

(** X1. A message for a chat the store does not have is stored nowhere: the
    chats and the selection stay as they are, and the client asks the server
    for its data again, and sends nothing else. *)
Theorem receive_unknown_chat_requests_refresh (initialUser : User.t)
    (m : Message.t) (C : string) (s : App) :
  findChat C s = None ->
  let s' := on_receive_message initialUser m C s in
  chats s' = chats s /\ selectedChatId s' = selectedChatId s
  /\ emitted s' = emitted s ++ [request_initial_data].
Proof.
  intros Hf s'. apply find_none_existsb in Hf.
  subst s'. rewrite chats_on_receive_message, selectedChatId_on_receive_message,
    emitted_on_receive_message.
  by rewrite Hf.
Qed.

(** X2. Receiving the same message for the same chat a second time changes
    no chat: the second [receive_message] finds the id in the list and the
    chat is at the front already. This holds for every store. *)
Theorem receive_message_idempotent (initialUser : User.t) (m : Message.t)
    (C : string) (s : App) :
  chats (on_receive_message initialUser m C
           (on_receive_message initialUser m C s))
  = chats (on_receive_message initialUser m C s).
Proof.
  rewrite (chats_on_receive_message initialUser m C
             (on_receive_message initialUser m C s)).
  rewrite (chats_on_receive_message initialUser m C s).
  set (f := fun chat => if hasId C chat
                        then withIncoming None m chat else chat).
  assert (Hid : forall c, Chat.id (f c) = Chat.id c).
  { intros c. subst f. simpl. destruct (hasId C c); [|done].
    apply withIncoming_id. }
  assert (Hff : forall c, f (f c) = f c).
  { intros c. subst f. simpl. destruct (hasId C c) eqn:Hc.
    - assert (hasId C (withIncoming None m c) = true) as ->.
      { unfold hasId. by rewrite withIncoming_id. }
      apply withIncoming_idemp.
    - by rewrite Hc. }
  destruct (existsb (hasId C) (chats s)) eqn:He; [|by rewrite He].
  destruct (first_split _ _ He) as (l1 & c & l2 & -> & H1 & Hc).
  rewrite (moveToFront_map C f) by done.
  rewrite moveToFront_split by done. simpl.
  assert (Hfc : hasId C (f c) = true).
  { unfold hasId. rewrite Hid. exact Hc. }
  rewrite Hfc. simpl.
  rewrite Hff, moveToFront_head by done.
  rewrite map_map. f_equal. apply map_ext. intros a. apply Hff.
Qed.

(** X3. A message for a chat of the store, new or a duplicate, leaves the
    first chat of that id at index 0, as [receive_message] has made it: as
    it was for a duplicate, and with the message appended and counted as
    unread for a new one. The chats of another id are not changed and keep
    their order, and no chat is added or lost. *)
Theorem receive_message_moves_to_front (initialUser : User.t) (m : Message.t)
    (C : string) (s : App) (c : Chat.t) :
  findChat C s = Some c ->
  let s' := on_receive_message initialUser m C s in
  let other d := negb (hasId C d) in
  let c' :=
    if existsb (msgHasId (Message.id m)) (Chat.messages c) then c
    else Chat.mk (Chat.id c) (Chat.isGroup c) (Chat.name c)
           (Chat.participants c) (Chat.messages c ++ [m]) (Some m)
           (Some (default 0 (Chat.unreadCount c) + 1)) in
  chats s' !! 0 = Some c'
  /\ findChat C s' = Some c'
  /\ List.filter other (chats s') = List.filter other (chats s)
  /\ length (chats s') = length (chats s).
Proof.
  intros Hf s' other c'. subst s'. unfold findChat in *.
  change c' with (withIncoming None m c). clear c'.
  rewrite chats_on_receive_message.
  pose proof (find_existsb _ _ _ Hf) as He. rewrite He.
  destruct (first_split _ _ He) as (l1 & x & l2 & Hl & H1 & Hx).
  rewrite Hl in Hf. rewrite find_split in Hf by done. injection Hf as ->.
  set (f := fun chat => if hasId C chat
                        then withIncoming None m chat else chat).
  assert (Hid : forall d, Chat.id (f d) = Chat.id d).
  { intros d. subst f. simpl. destruct (hasId C d); [|done].
    apply withIncoming_id. }
  assert (Hfo : forall l, List.filter other (map f l) = List.filter other l).
  { induction l as [|d l IH]; simpl; [done|]. subst other f. simpl in *.
    destruct (hasId C d) eqn:Hd; simpl.
    - unfold hasId at 1. rewrite withIncoming_id. fold (hasId C d).
      by rewrite Hd.
    - by rewrite Hd, IH. }
  rewrite (moveToFront_map C f), Hl, moveToFront_split by done. simpl.
  assert (Hfc : f c = withIncoming None m c).
  { subst f. simpl. by rewrite Hx. }
  rewrite Hfc. split; [done|]. split.
  { unfold hasId at 1. rewrite withIncoming_id. fold (hasId C c). by rewrite Hx. }
  split.
  - subst other. simpl. unfold hasId at 1. rewrite withIncoming_id.
    fold (hasId C c). rewrite Hx. simpl.
    rewrite Hfo. rewrite !List.filter_app. simpl. by rewrite Hx.
  - rewrite length_map, !length_app. simpl. lia.
Qed.

Lemma findChat_on_receive_message (initialUser : User.t) (m : Message.t)
    (C : string) (s : App) (c : Chat.t) :
  findChat C s = Some c ->
  findChat C (on_receive_message initialUser m C s)
  = Some (withIncoming None m c).
Proof.
  intros Hf. unfold findChat in *. rewrite chats_on_receive_message.
  pose proof (find_existsb _ _ _ Hf) as He. rewrite He.
  destruct (first_split _ _ He) as (l1 & x & l2 & Hl & H1 & Hx).
  rewrite Hl in Hf. rewrite find_split in Hf by done. injection Hf as ->.
  rewrite Hl, (moveToFront_map C).
  - rewrite moveToFront_split by done. simpl. rewrite Hx.
    unfold hasId at 1. rewrite withIncoming_id. fold (hasId C c). by rewrite Hx.
  - intros d. destruct (hasId C d); [|done]. apply withIncoming_id.
Qed.

(** X4. A new message for a chat of the store is counted as unread, one
    more than before, and nothing is sent to the server, whichever chat is
    selected: the handler tests the selection of the render that registered
    it, where no chat is selected, so that a message for the chat that is
    open is counted as well and no [mark_as_read] goes out for it. *)
Theorem receive_counts_unread_whatever_is_selected (initialUser : User.t)
    (m : Message.t) (C : string) (s : App) (c : Chat.t) :
  findChat C s = Some c ->
  countMessages (Message.id m) (Chat.messages c) = 0 ->
  let s' := on_receive_message initialUser m C s in
  (exists c', findChat C s' = Some c'
     /\ Chat.messages c' = Chat.messages c ++ [m]
     /\ Chat.lastMessage c' = Some m
     /\ Chat.unreadCount c' = Some (default 0 (Chat.unreadCount c) + 1))
  /\ emitted s' = emitted s
  /\ selectedChatId s' = selectedChatId s.
Proof.
  intros Hf Hnew s'. subst s'. split; [|split].
  - eexists. split; [by apply findChat_on_receive_message|].
    unfold withIncoming. by rewrite countMessages_existsb, Hnew.
  - rewrite emitted_on_receive_message.
    unfold findChat in Hf. by rewrite (find_existsb _ _ _ Hf).
  - apply selectedChatId_on_receive_message.
Qed.

(** ** Sending into a chat the store does not have *)

(** X5. With a socket and a user, a message for a chat id that is not in the
    store is sent to the server all the same: [send_message] is emitted,
    while no chat changes and the user is shown an error. *)
Theorem send_into_unknown_chat_still_emits (tempId : string) (now : Z)
    (chatId content : string) (type : MessageType) (s : App) (u : User.t) :
  socket s = true -> currentUser s = Some u ->
  findChat chatId s = None ->
  let s' := handleSendMessage tempId now chatId content type s in
  chats s' = chats s
  /\ emitted s'
     = emitted s ++ [send_message chatId (newMessage tempId now u content type)]
  /\ toasts s' = toasts s ++ ["Error"].
Proof.
  intros Hsock Hu Hf s'. subst s'. unfold handleSendMessage, optimisticAppend.
  rewrite Hsock, Hu.
  apply find_none_existsb, existsb_findIndex in Hf. by rewrite Hf.
Qed.

(** ** Acknowledgements that come twice or too late *)

Lemma confirmed_id_other (L K : string) (m : Message.t) :
  Message.id m <> L -> confirmed L K m = m.
Proof. intros H. unfold confirmed. apply msgHasId_false in H. by rewrite H. Qed.

Lemma confirmed_idemp (L K : string) (m : Message.t) :
  confirmed L K (confirmed L K m) = confirmed L K m.
Proof.
  unfold confirmed at 2. destruct (msgHasId L m) eqn:Hm.
  - unfold confirmed. rewrite Hm.
    by destruct (msgHasId L (Message.with_status _ _)).
  - done.
Qed.

Lemma reverted_idemp (L : string) (err : option string) (m : Message.t) :
  reverted L err (reverted L err m) = reverted L err m.
Proof.
  unfold reverted at 2. destruct (msgHasId L m) eqn:Hm.
  - unfold reverted. rewrite Hm.
    by destruct (msgHasId L (Message.with_error _ _)).
  - done.
Qed.

Lemma map_idemp_on {A} (g : A -> A) (l : list A) :
  (forall x, g (g x) = g x) -> map g (map g l) = map g l.
Proof. intros Hg. rewrite map_map. apply map_ext. intros x. apply Hg. Qed.

Lemma confirmIn_idemp (L K : string) (c : Chat.t) :
  confirmIn L K (confirmIn L K c) = confirmIn L K c.
Proof.
  destruct c as [i g n p ms lm ur]. unfold confirmIn. simpl.
  rewrite (map_idemp_on (confirmed L K)) by apply confirmed_idemp.
  unfold Chat.with_lastMessage, Chat.with_messages. simpl. f_equal.
  destruct lm as [lm|]; [|done].
  destruct (msgHasId L lm) eqn:Hlm; [|by rewrite Hlm].
  destruct (List.find (msgHasId K) (map (confirmed L K) ms)) as [x|] eqn:Hf.
  - by destruct (msgHasId L x).
  - by rewrite Hlm.
Qed.

Lemma failIn_idemp (L : string) (err : option string) (c : Chat.t) :
  failIn L err (failIn L err c) = failIn L err c.
Proof.
  destruct c as [i g n p ms lm ur]. unfold failIn. simpl.
  rewrite (map_idemp_on (reverted L err)) by apply reverted_idemp.
  unfold Chat.with_lastMessage, Chat.with_messages. simpl. f_equal.
  destruct lm as [lm|]; [|done].
  destruct (msgHasId L lm) eqn:Hlm; [|by rewrite Hlm].
  destruct (last _) as [x|] eqn:Hx; [|done].
  rewrite filter_others_reverted in Hx.
  apply last_filter_others in Hx as [Hx _].
  apply msgHasId_false in Hx. by rewrite Hx.
Qed.

(** X6. An acknowledgement of [send_message] that is delivered a second
    time, success or failure, changes no chat: what the first one made of
    the message and of [lastMessage] stays. *)
Theorem sendMessageAck_idempotent (chatId tempId : string)
    (ack : MessageAck.t) (s : App) :
  chats (sendMessageAck chatId tempId ack (sendMessageAck chatId tempId ack s))
  = chats (sendMessageAck chatId tempId ack s).
Proof.
  unfold sendMessageAck.
  destruct (MessageAck.success ack && truthy (MessageAck.messageId ack));
    simpl; apply map_idemp_on; intros c.
  - destruct (hasId chatId c) eqn:Hc; [|by rewrite Hc].
    change (hasId chatId (confirmIn tempId (default "" (MessageAck.messageId ack)) c))
      with (hasId chatId c).
    rewrite Hc. apply confirmIn_idemp.
  - destruct (hasId chatId c) eqn:Hc; [|by rewrite Hc].
    change (hasId chatId (failIn tempId (MessageAck.error ack) c))
      with (hasId chatId c).
    rewrite Hc. apply failIn_idemp.
Qed.

Lemma map_id_on {A} (g : A -> A) (l : list A) :
  (forall x, x ∈ l -> g x = x) -> map g l = l.
Proof.
  induction l as [|x l IH]; simpl; [done|]. intros H.
  rewrite H by by left. f_equal. apply IH. intros y Hy. apply H. by right.
Qed.

Lemma countMessages_zero (L : string) (l : list Message.t) (m : Message.t) :
  countMessages L l = 0 -> m ∈ l -> Message.id m <> L.
Proof.
  intros H0 Hin. apply msgHasId_false.
  pose proof (countMessages_existsb L l) as He. rewrite H0 in He. simpl in He.
  destruct (msgHasId L m) eqn:Hm; [|done].
  assert (existsb (msgHasId L) l = true); [|congruence].
  apply existsb_exists. exists m. split; [by apply list_elem_of_In | done].
Qed.

(** X7. An acknowledgement for a message that is not in the store any more,
    as after the chats were replaced, changes no chat: this holds when no
    message and no [lastMessage] of the chats of that id has the temporary
    id. *)
Theorem stale_ack_changes_no_chat (chatId tempId : string)
    (ack : MessageAck.t) (s : App) :
  (forall c, c ∈ chats s -> Chat.id c = chatId ->
     countMessages tempId (Chat.messages c) = 0
     /\ forall lm, Chat.lastMessage c = Some lm -> Message.id lm <> tempId) ->
  chats (sendMessageAck chatId tempId ack s) = chats s.
Proof.
  intros Hstale. unfold sendMessageAck.
  destruct (MessageAck.success ack && truthy (MessageAck.messageId ack));
    simpl; apply map_id_on; intros c Hin;
    destruct (hasId chatId c) eqn:Hc; try done;
    apply hasId_true in Hc; destruct (Hstale c Hin Hc) as [H0 Hlm].
  - unfold confirmIn. rewrite (map_id_on (confirmed tempId _)).
    + destruct c as [i g n p ms [lm|] ur]; simpl in *; [|done].
      specialize (Hlm lm eq_refl). apply msgHasId_false in Hlm.
      by rewrite Hlm.
    + intros m Hm. apply confirmed_id_other. by eapply countMessages_zero.
  - unfold failIn. rewrite (map_id_on (reverted tempId _)).
    + destruct c as [i g n p ms [lm|] ur]; simpl in *; [|done].
      specialize (Hlm lm eq_refl). apply msgHasId_false in Hlm.
      by rewrite Hlm.
    + intros m Hm. unfold reverted.
      pose proof (countMessages_zero _ _ _ H0 Hm) as Hne.
      apply msgHasId_false in Hne. by rewrite Hne.
Qed.

(** ** Status updates that find nothing, and what they leave alone *)

Lemma setChats_id (f : list Chat.t -> list Chat.t) (s : App) :
  f (chats s) = chats s -> setChats f s = s.
Proof. intros H. destruct s. unfold setChats. simpl in *. by rewrite H. Qed.

(** X8. A [message_status_update] for a chat or a message the store does
    not have changes nothing at all in the state. *)
Theorem status_update_unknown_is_noop (chatId messageId : string)
    (st : Status) (s : App) :
  (forall c, c ∈ chats s -> Chat.id c = chatId ->
     countMessages messageId (Chat.messages c) = 0) ->
  on_message_status_update chatId messageId st s = s.
Proof.
  intros Hno. unfold on_message_status_update. apply setChats_id.
  apply map_id_on. intros c Hin.
  destruct (hasId chatId c) eqn:Hc; [|done]. apply hasId_true in Hc.
  rewrite map_id_on; [by destruct c|].
  intros m Hm. pose proof (countMessages_zero _ _ _ (Hno c Hin Hc) Hm) as Hne.
  apply msgHasId_false in Hne. by rewrite Hne.
Qed.

(** X9. [message_status_update] writes to the message list only: the
    [lastMessage] of the chat is a copy of its own and keeps the status it
    had, also when it is the message that is updated; the count of unread
    messages and the number of messages stay as well. *)
Theorem status_update_leaves_lastMessage (chatId messageId : string)
    (st : Status) (s : App) (i : nat) (c : Chat.t) :
  chats s !! i = Some c ->
  let s' := on_message_status_update chatId messageId st s in
  exists c', chats s' !! i = Some c'
    /\ Chat.lastMessage c' = Chat.lastMessage c
    /\ Chat.unreadCount c' = Chat.unreadCount c
    /\ length (Chat.messages c') = length (Chat.messages c)
    /\ (Chat.id c = chatId ->
        forall j m, Chat.messages c !! j = Some m -> Message.id m = messageId ->
          Chat.lastMessage c = Some m ->
          Chat.messages c' !! j = Some (Message.with_status (Some st) m)
          /\ (Message.status <$> Chat.lastMessage c') = Some (Message.status m)).
Proof.
  intros Hi s'. subst s'. simpl. rewrite map_lookup, Hi. simpl.
  eexists. split; [done|].
  destruct (hasId chatId c) eqn:Hc; simpl.
  - split; [done|]. split; [done|]. split; [apply length_map|].
    intros _ j m Hj Hm Hlm. rewrite map_lookup, Hj. simpl.
    apply msgHasId_true in Hm. rewrite Hm. split; [done|]. by rewrite Hlm.
  - split; [done|]. split; [done|]. split; [done|].
    intros H. apply hasId_true in H. congruence.
Qed.

(** ** Presence *)

(** X10. [user_status_update] reaches every copy of the user the state
    holds in the user list and in the participants of the chats: each entry
    of that id has the new flag and is otherwise as it was, and each entry
    of another id is as it was. No user, participant or chat is added, lost
    or moved, and the other fields of the chats, among them the messages
    with the senders written in them, are not touched. *)
Theorem user_status_update_reaches_all_copies (userId : string) (flag : bool)
    (s : App) :
  let s' := on_user_status_update userId flag s in
  let upd u := if User.id u === userId then User.with_isOnline flag u else u in
  (forall u, u ∈ availableUsers s' -> User.id u = userId ->
     User.isOnline u = flag)
  /\ (forall c u, c ∈ chats s' -> u ∈ Chat.participants c ->
        User.id u = userId -> User.isOnline u = flag)
  /\ length (availableUsers s') = length (availableUsers s)
  /\ (forall i u, availableUsers s !! i = Some u ->
        availableUsers s' !! i = Some (upd u))
  /\ length (chats s') = length (chats s)
  /\ (forall i c, chats s !! i = Some c ->
        exists c', chats s' !! i = Some c'
          /\ Chat.id c' = Chat.id c /\ Chat.isGroup c' = Chat.isGroup c
          /\ Chat.name c' = Chat.name c
          /\ Chat.messages c' = Chat.messages c
          /\ Chat.lastMessage c' = Chat.lastMessage c
          /\ Chat.unreadCount c' = Chat.unreadCount c
          /\ length (Chat.participants c') = length (Chat.participants c)
          /\ forall j u, Chat.participants c !! j = Some u ->
               Chat.participants c' !! j = Some (upd u))
  /\ (forall u, User.id u = userId ->
        upd u = User.mk (User.id u) (User.name u) (User.avatarUrl u) flag)
  /\ (forall u, User.id u <> userId -> upd u = u).
Proof.
  intros s' upd.
  assert (Hupd : forall v u, u = upd v -> User.id u = userId ->
            User.isOnline u = flag).
  { intros v u -> Hid. subst upd. simpl in *.
    destruct (User.id v === userId) eqn:Hv; [done|].
    apply String.eqb_neq in Hv. done. }
  assert (Hau : availableUsers s' = map upd (availableUsers s)).
  { subst s'. unfold on_user_status_update.
    destruct (currentUser s) as [u|]; [destruct (userId === User.id u)|]; done. }
  assert (Hch : chats s' = map (fun chat =>
      Chat.mk (Chat.id chat) (Chat.isGroup chat) (Chat.name chat)
              (map upd (Chat.participants chat)) (Chat.messages chat)
              (Chat.lastMessage chat) (Chat.unreadCount chat)) (chats s)).
  { subst s'. unfold on_user_status_update.
    destruct (currentUser s) as [u|]; [destruct (userId === User.id u)|]; done. }
  split; [|split; [|split; [|split; [|split; [|split; [|split]]]]]].
  - intros u Hin Hid. rewrite Hau in Hin.
    apply list_elem_of_fmap in Hin as (v & -> & _). by eapply Hupd.
  - intros c u Hc Hu Hid. rewrite Hch in Hc.
    apply list_elem_of_fmap in Hc as (d & -> & _). simpl in Hu.
    apply list_elem_of_fmap in Hu as (v & -> & _). by eapply Hupd.
  - by rewrite Hau, length_map.
  - intros i u Hi. by rewrite Hau, map_lookup, Hi.
  - by rewrite Hch, length_map.
  - intros i c Hi. rewrite Hch, map_lookup, Hi. simpl.
    eexists. split; [done|]. simpl. repeat (split; [done|]).
    split; [apply length_map|].
    intros j u Hj. by rewrite map_lookup, Hj.
  - intros u Hid. subst upd. simpl. apply String.eqb_eq in Hid. by rewrite Hid.
  - intros u Hne. subst upd. simpl. apply String.eqb_neq in Hne. by rewrite Hne.
Qed.

Lemma with_isOnline_idemp (flag : bool) (userId : string) (u : User.t) :
  (fun v => if User.id v === userId then User.with_isOnline flag v else v)
    ((fun v => if User.id v === userId then User.with_isOnline flag v else v) u)
  = (fun v => if User.id v === userId then User.with_isOnline flag v else v) u.
Proof.
  simpl. destruct (User.id u === userId) eqn:Hu; simpl; by rewrite Hu.
Qed.

(** X11. [user_status_update] is idempotent: the same update delivered
    again leaves the whole state as the first one made it. *)
Theorem user_status_update_idempotent (userId : string) (flag : bool)
    (s : App) :
  on_user_status_update userId flag (on_user_status_update userId flag s)
  = on_user_status_update userId flag s.
Proof.
  destruct s as [cu ch sel au v ld md sk em ts].
  set (upd := fun v => if User.id v === userId
                       then User.with_isOnline flag v else v).
  assert (Hau : map upd (map upd au) = map upd au).
  { apply map_idemp_on. intros u. apply with_isOnline_idemp. }
  assert (Hch : forall l : list Chat.t,
    map (fun chat => Chat.mk (Chat.id chat) (Chat.isGroup chat) (Chat.name chat)
           (map upd (Chat.participants chat)) (Chat.messages chat)
           (Chat.lastMessage chat) (Chat.unreadCount chat))
      (map (fun chat => Chat.mk (Chat.id chat) (Chat.isGroup chat) (Chat.name chat)
           (map upd (Chat.participants chat)) (Chat.messages chat)
           (Chat.lastMessage chat) (Chat.unreadCount chat)) l)
    = map (fun chat => Chat.mk (Chat.id chat) (Chat.isGroup chat) (Chat.name chat)
           (map upd (Chat.participants chat)) (Chat.messages chat)
           (Chat.lastMessage chat) (Chat.unreadCount chat)) l).
  { intros l. rewrite map_map. apply map_ext. intros c. simpl. f_equal.
    apply map_idemp_on. intros u. apply with_isOnline_idemp. }
  unfold on_user_status_update. simpl. fold upd.
  destruct cu as [u|]; simpl.
  - destruct (userId === User.id u) eqn:Hu; simpl.
    + rewrite Hu. unfold setCurrentUser, setChats, setAvailableUsers. simpl.
      by rewrite Hau, Hch.
    + rewrite Hu. unfold setChats, setAvailableUsers. simpl.
      by rewrite Hau, Hch.
  - unfold setChats, setAvailableUsers. simpl. by rewrite Hau, Hch.
Qed.

(** ** The order of the chats after [initial_data] *)

Lemma insertByRecency_sorted (c : Chat.t) (l : list Chat.t) :
  StronglySorted (fun a b => (recency b <= recency a)%Z) l ->
  StronglySorted (fun a b => (recency b <= recency a)%Z) (insertByRecency c l).
Proof.
  induction l as [|d l IH]; simpl; intros Hs.
  - repeat constructor.
  - apply StronglySorted_inv in Hs as [Hl Hd].
    destruct (Z.leb (recency d) (recency c)) eqn:Hle.
    + apply Z.leb_le in Hle. constructor; [by constructor|].
      constructor; [done|].
      eapply Forall_impl; [exact Hd|]. simpl. intros x Hx. lia.
    + apply Z.leb_gt in Hle. constructor; [by apply IH|].
      rewrite insertByRecency_perm. constructor; [lia | done].
Qed.

Lemma insertByRecency_filter (t : Z) (c : Chat.t) (l : list Chat.t) :
  List.filter (fun d => Z.eqb (recency d) t) (insertByRecency c l)
  = List.filter (fun d => Z.eqb (recency d) t) (c :: l).
Proof.
  induction l as [|d l IH]; [done|].
  simpl insertByRecency.
  destruct (Z.leb (recency d) (recency c)) eqn:Hle; [done|].
  apply Z.leb_gt in Hle.
  change (List.filter (fun d0 => Z.eqb (recency d0) t) (d :: insertByRecency c l))
    with (if Z.eqb (recency d) t
          then d :: List.filter (fun d0 => Z.eqb (recency d0) t) (insertByRecency c l)
          else List.filter (fun d0 => Z.eqb (recency d0) t) (insertByRecency c l)).
  rewrite IH. simpl.
  destruct (Z.eqb (recency c) t) eqn:Hc, (Z.eqb (recency d) t) eqn:Hd; try done.
  apply Z.eqb_eq in Hc, Hd. lia.
Qed.

Lemma sortByRecency_sorted (l : list Chat.t) :
  StronglySorted (fun a b => (recency b <= recency a)%Z) (sortByRecency l).
Proof.
  unfold sortByRecency. induction l as [|c l IH]; simpl; [constructor|].
  by apply insertByRecency_sorted.
Qed.

Lemma sortByRecency_stable (t : Z) (l : list Chat.t) :
  List.filter (fun d => Z.eqb (recency d) t) (sortByRecency l)
  = List.filter (fun d => Z.eqb (recency d) t) l.
Proof.
  unfold sortByRecency. induction l as [|c l IH]; simpl; [done|].
  rewrite insertByRecency_filter. simpl. by rewrite IH.
Qed.

(** X12. The chats [initial_data] stores are the chats of the server, each
    as often as it came, with the most recent last message first; chats
    whose last messages have the same time, or that have none, keep the
    order the server gave them. *)
Theorem sortByRecency_sorts (l : list Chat.t) :
  sortByRecency l ≡ₚ l
  /\ StronglySorted (fun a b => (recency b <= recency a)%Z) (sortByRecency l)
  /\ forall t, List.filter (fun d => Z.eqb (recency d) t) (sortByRecency l)
               = List.filter (fun d => Z.eqb (recency d) t) l.
Proof.
  split; [apply sortByRecency_perm|].
  split; [apply sortByRecency_sorted|].
  intros t. apply sortByRecency_stable.
Qed.

Lemma sortByRecency_head (l : list Chat.t) (c : Chat.t) (r : list Chat.t) :
  sortByRecency l = c :: r ->
  c ∈ l /\ forall d, d ∈ l -> (recency d <= recency c)%Z.
Proof.
  intros Heq. pose proof (sortByRecency_perm l) as Hp.
  pose proof (sortByRecency_sorted l) as Hs.
  rewrite Heq in Hp, Hs. split.
  - rewrite <- Hp. by left.
  - intros d Hd. rewrite <- Hp in Hd.
    apply StronglySorted_inv in Hs as [_ Hall].
    apply elem_of_cons in Hd as [->|Hd]; [lia|].
    by eapply Forall_forall in Hall.
Qed.

(** X13. After a disconnect that was not asked for, the [initial_data] of
    the reconnection, when it has chats, selects the chat it puts first: a
    chat of the server whose last message is at least as recent as that of
    every other. *)
Theorem reconnect_selects_most_recent (initialUser : User.t) (reason : string)
    (data : InitialData.t) (s : App) :
  reason <> "io client disconnect" ->
  InitialData.chats data <> [] ->
  let s' := on_initial_data initialUser data (on_disconnect reason s) in
  exists c, chats s' !! 0 = Some c
    /\ selectedChatId s' = Some (Chat.id c)
    /\ c ∈ InitialData.chats data
    /\ (forall d, d ∈ InitialData.chats data -> (recency d <= recency c)%Z).
Proof.
  intros Hreason Hne s'. subst s'.
  destruct (initial_data_keeps initialUser data (on_disconnect reason s))
    as (-> & _ & -> & _).
  unfold initialDataHandler.
  destruct (sortByRecency (InitialData.chats data)) as [|c r] eqn:Hsort.
  - exfalso. apply Hne.
    pose proof (sortByRecency_perm (InitialData.chats data)) as Hp.
    rewrite Hsort in Hp. by apply Permutation_nil_l in Hp.
  - simpl.
    destruct (sortByRecency_head _ _ _ Hsort) as [Hin Hmax].
    by exists c.
Qed.

(** ** The ids of the chats stay distinct *)

Lemma ids_map (f : Chat.t -> Chat.t) (l : list Chat.t) :
  (forall c, Chat.id (f c) = Chat.id c) ->
  map Chat.id (map f l) = map Chat.id l.
Proof. intros Hf. rewrite map_map. apply map_ext. intros c. apply Hf. Qed.

Lemma without_index_perm {A} (l : list A) (i : nat) (x : A) :
  l !! i = Some x -> x :: without_index i l ≡ₚ l.
Proof.
  intros Hi. unfold without_index.
  rewrite <- (take_drop_middle l i x Hi) at 3.
  apply Permutation_middle.
Qed.

Lemma moveToFront_perm (C : string) (l : list Chat.t) :
  moveToFront C l ≡ₚ l.
Proof.
  unfold moveToFront. destruct (findIndex (hasId C) l) as [i|]; [|done].
  destruct (l !! i) as [c|] eqn:Hi; [|done]. by apply without_index_perm.
Qed.

Lemma ids_putFirst (newChat : Chat.t) (l : list Chat.t) :
  NoDup (map Chat.id l) -> NoDup (map Chat.id (putFirst newChat l)).
Proof.
  intros Hnd. rewrite putFirst_cons. simpl. apply NoDup_cons. split.
  - intros Hin. apply list_elem_of_fmap in Hin as (c & Hid & Hc).
    apply list_elem_of_In, List.filter_In in Hc as [_ Hc].
    symmetry in Hid. apply hasId_true in Hid. by rewrite Hid in Hc.
  - induction l as [|c l IH]; simpl in *; [constructor|].
    apply NoDup_cons in Hnd as [Hc Hnd].
    destruct (hasId (Chat.id newChat) c); simpl; [by apply IH|].
    apply NoDup_cons. split; [|by apply IH].
    intros Hin. apply Hc.
    apply list_elem_of_fmap in Hin as (d & Hid & Hd).
    apply list_elem_of_fmap. exists d. split; [done|].
    apply list_elem_of_In. apply list_elem_of_In, List.filter_In in Hd. tauto.
Qed.

Lemma ids_appended (chatId : string) (f : Chat.t -> Chat.t) (l : list Chat.t)
    (i : nat) (c : Chat.t) :
  (forall d, Chat.id (f d) = Chat.id d) -> l !! i = Some c ->
  map Chat.id (f c :: without_index i l) ≡ₚ map Chat.id l.
Proof.
  intros Hf Hi. simpl. rewrite Hf.
  change (Chat.id c :: map Chat.id (without_index i l))
    with (map Chat.id (c :: without_index i l)).
  apply Permutation_map. by apply without_index_perm.
Qed.

Lemma ids_optimisticAppend (chatId : string) (m : Message.t)
    (l l' : list Chat.t) :
  optimisticAppend chatId m l = Some l' -> map Chat.id l' ≡ₚ map Chat.id l.
Proof.
  unfold optimisticAppend.
  destruct (findIndex (hasId chatId) l) as [i|]; [|done].
  destruct (l !! i) as [c|] eqn:Hi; intros [= <-]; [|done].
  by apply (ids_appended chatId (sentInto m)).
Qed.

Lemma ids_callAppend (chatId : string) (m : Message.t) (l : list Chat.t) :
  map Chat.id (callAppend chatId m l) ≡ₚ map Chat.id l.
Proof.
  unfold callAppend.
  destruct (findIndex (hasId chatId) l) as [i|]; [|done].
  destruct (l !! i) as [c|] eqn:Hi; [|done].
  by apply (ids_appended chatId
    (fun t => Chat.with_lastMessage (Some m)
                (Chat.with_messages (Chat.messages t ++ [m]) t))).
Qed.

Lemma ids_handleSelectChat (chatId : string) (s : App) :
  map Chat.id (chats (handleSelectChat chatId s)) = map Chat.id (chats s).
Proof.
  unfold handleSelectChat.
  assert (Hem : forall (es : list ClientEvent) (a : App),
            chats (fold_left (fun s0 e => emit e s0) es a) = chats a).
  { induction es as [|e es IH]; intros a; simpl; [done|]. by rewrite IH. }
  simpl. rewrite Hem. simpl. apply ids_map.
  intros c. by destruct (hasUnread _ _ _).
Qed.

Lemma ids_callAck (title chatId tempId : string) (ack : MessageAck.t) (s : App) :
  map Chat.id (chats (callAck title chatId tempId ack s)) = map Chat.id (chats s).
Proof.
  unfold callAck.
  destruct (MessageAck.success ack && truthy (MessageAck.messageId ack));
    [|done].
  simpl. apply ids_map. intros c. by destruct (hasId chatId c).
Qed.

Lemma ids_step (initialUser : User.t) (e : Event) (s : App) :
  distinctPayload e -> NoDup (chatIds s) ->
  NoDup (chatIds (step initialUser e s)).
Proof.
  intros Hpay Hnd. unfold chatIds in *.
  destruct e; cbn [step distinctPayload] in *.
  - (* disconnect *)
    unfold on_disconnect. destruct (negb _); [constructor | done].
  - (* initial_data *)
    rewrite chats_initial_data.
    eapply NoDup_Permutation_proper; [|exact Hpay].
    apply Permutation_map, sortByRecency_perm.
  - (* user_status_update *)
    assert (Hids : map Chat.id (chats (on_user_status_update userId isOnline s))
                   = map Chat.id (chats s)).
    { unfold on_user_status_update.
      destruct (currentUser s) as [u|]; [destruct (userId === User.id u)|];
        simpl; by rewrite map_map. }
    by rewrite Hids.
  - (* receive_message *)
    rewrite chats_on_receive_message.
    destruct (existsb (hasId chatId) (chats s)); [|done].
    eapply NoDup_Permutation_proper; [|exact Hnd].
    rewrite moveToFront_perm, ids_map; [done|].
    intros c. destruct (hasId chatId c); [|done]. apply withIncoming_id.
  - (* message_status_update *)
    simpl. rewrite ids_map; [done|]. intros c. by destruct (hasId chatId c).
  - (* group_created *)
    simpl. destruct (existsb (hasId (Chat.id newChat)) (chats s)) eqn:He; [done|].
    simpl. apply NoDup_cons. split; [|done].
    intros Hin. apply list_elem_of_fmap in Hin as (c & Hid & Hc).
    assert (existsb (hasId (Chat.id newChat)) (chats s) = true); [|congruence].
    apply existsb_exists. exists c. split; [by apply list_elem_of_In|].
    by apply hasId_true.
  - (* direct_chat_started *)
    simpl. by apply ids_putFirst.
  - (* select_chat *)
    by rewrite ids_handleSelectChat.
  - (* start_direct_chat *)
    unfold handleStartDirectChat.
    destruct (socket s); [|done]. destruct (currentUser s) as [u|]; [|done].
    destruct (otherUserId === User.id u); [done|].
    destruct (List.find _ (chats s)) as [c|]; [|done].
    change (NoDup (map Chat.id (chats (handleSelectChat (Chat.id c) s)))).
    by rewrite ids_handleSelectChat.
  - (* send_message *)
    unfold handleSendMessage.
    destruct (socket s); [|done]. destruct (currentUser s) as [u|]; [|done].
    destruct (optimisticAppend _ _ _) as [l|] eqn:Ho; [|done]. simpl.
    eapply NoDup_Permutation_proper; [|exact Hnd].
    by eapply ids_optimisticAppend.
  - (* send_message_ack *)
    unfold sendMessageAck.
    destruct (MessageAck.success ack && truthy (MessageAck.messageId ack));
      simpl; rewrite ids_map; try done;
      intros c; by destruct (hasId chatId c).
  - (* start_call *)
    unfold handleStartCall.
    destruct (socket s); [|done]. destruct (currentUser s) as [u|]; [|done].
    simpl. eapply NoDup_Permutation_proper; [|exact Hnd].
    apply ids_callAppend.
  - (* start_call_ack *)
    unfold startCallAck. by rewrite ids_callAck.
  - (* end_call *)
    unfold handleEndCall.
    destruct (socket s); [|done]. destruct (currentUser s) as [u|]; [|done].
    simpl. eapply NoDup_Permutation_proper; [|exact Hnd].
    apply ids_callAppend.
  - (* end_call_ack *)
    unfold endCallAck. by rewrite ids_callAck.
  - (* create_group_ack *)
    unfold createGroupAck. destruct (GroupAck.success ack); [|done].
    destruct (GroupAck.newChat ack) as [c|]; [|done]. simpl.
    by apply ids_putFirst.
Qed.

(** X14. The store never holds two chats of the same id: when the ids of
    the chats are distinct, they are distinct after every run of events,
    whatever the events carry, as long as the chats of each [initial_data]
    have distinct ids themselves. *)
Theorem chat_ids_stay_distinct (initialUser : User.t) (es : list Event)
    (s : App) :
  Forall distinctPayload es -> NoDup (chatIds s) ->
  NoDup (chatIds (run initialUser es s)).
Proof.
  unfold run. revert s. induction es as [|e es IH]; intros s Hpay Hnd; simpl.
  - done.
  - apply Forall_cons in Hpay as [He Hes].
    apply IH; [done|]. by apply ids_step.
Qed.

(** ** The unread badge *)

Lemma hasUnread_badge (C : string) (u : User.t) (c : Chat.t) :
  hasUnread C (Some u) c = hasId C c && bool_decide (unreadBadge c <> None).
Proof.
  unfold hasUnread, unreadBadge.
  destruct (hasId C c); simpl; [|done].
  destruct (Chat.unreadCount c) as [[|n]|]; simpl; try done.
Qed.

Lemma chats_handleSelectChat (C : string) (s : App) :
  chats (handleSelectChat C s)
  = map (fun chat => if hasUnread C (currentUser s) chat
                     then Chat.with_unreadCount (Some 0) chat else chat)
        (chats s).
Proof.
  unfold handleSelectChat.
  assert (Hem : forall (es : list ClientEvent) (a : App),
            chats (fold_left (fun s0 e => emit e s0) es a) = chats a).
  { induction es as [|e es IH]; intros a; simpl; [done|]. by rewrite IH. }
  simpl. by rewrite Hem.
Qed.

(** X15. With a user logged in, selecting a chat clears its unread badge in
    the chat list: no chat of that id shows one afterwards. The chats of
    another id are as before, badge included, and the chat is the selected
    one, whether the store has it or not. *)
Theorem select_clears_badge (C : string) (s : App) (u : User.t) :
  currentUser s = Some u ->
  let s' := handleSelectChat C s in
  (forall c, c ∈ chats s' -> Chat.id c = C -> unreadBadge c = None)
  /\ (forall i c, chats s !! i = Some c -> Chat.id c <> C ->
        chats s' !! i = Some c)
  /\ length (chats s') = length (chats s)
  /\ selectedChatId s' = Some C.
Proof.
  intros Hu s'. subst s'. rewrite chats_handleSelectChat, Hu.
  split; [|split; [|split]].
  - intros c Hin Hid. apply list_elem_of_fmap in Hin as (d & -> & _).
    rewrite hasUnread_badge in *.
    destruct (hasId C d) eqn:Hd; simpl in *.
    + case_bool_decide as Hb; simpl; [done|].
      destruct (unreadBadge d) eqn:Hbd; [|done]. discriminate Hb.
    + apply hasId_false in Hd. done.
  - intros i c Hi Hne. rewrite map_lookup, Hi. simpl.
    unfold hasUnread. apply hasId_false in Hne. by rewrite Hne.
  - apply length_map.
  - unfold handleSelectChat. simpl.
    assert (Hem : forall (es : list ClientEvent) (a : App),
      selectedChatId (fold_left (fun s0 e => emit e s0) es a) = selectedChatId a).
    { induction es as [|e es IH]; intros a; simpl; [done|]. by rewrite IH. }
    by rewrite Hem.
Qed.

(** ** Calls *)

Lemma callAppend_found (chatId : string) (m : Message.t) (l : list Chat.t)
    (targetChat : Chat.t) :
  List.find (hasId chatId) l = Some targetChat ->
  exists i, l !! i = Some targetChat /\ Chat.id targetChat = chatId
    /\ callAppend chatId m l
       = Chat.with_lastMessage (Some m)
           (Chat.with_messages (Chat.messages targetChat ++ [m]) targetChat)
         :: without_index i l.
Proof.
  intros Hf. destruct (findIndex_find _ _ _ Hf) as (i & Hi & Hl & Hp).
  exists i. unfold callAppend. rewrite Hi, Hl.
  by apply hasId_true in Hp.
Qed.

(** X16. Starting a call in a chat of the store appends a [call_start]
    message without status, whose content is the kind of call, makes it the
    [lastMessage] and puts the chat at index 0, and sends one [start_call].
    Unlike sending a message, it leaves the [unreadCount] of the chat as it
    is. *)
Theorem start_call_keeps_unread (tempId : string) (now : Z) (chatId : string)
    (type : CallType.t) (s : App) (u : User.t) (targetChat : Chat.t) :
  socket s = true -> currentUser s = Some u ->
  findChat chatId s = Some targetChat ->
  let m := callMessage tempId now u (callTypeName type) call_start in
  let r := handleStartCall tempId now chatId type s in
  (exists c' i, chats r.1 !! 0 = Some c' /\ findChat chatId r.1 = Some c'
     /\ Chat.messages c' = Chat.messages targetChat ++ [m]
     /\ Chat.lastMessage c' = Some m
     /\ Chat.unreadCount c' = Chat.unreadCount targetChat
     /\ chats s !! i = Some targetChat
     /\ chats r.1 = c' :: without_index i (chats s))
  /\ Message.status m = None /\ Message.type m = call_start
  /\ r.2 = [start_call chatId m]
  /\ emitted r.1 = emitted s.
Proof.
  intros Hsock Hu Hf m r. subst r. unfold handleStartCall.
  rewrite Hsock, Hu. fold m. simpl.
  destruct (callAppend_found chatId m _ _ Hf) as (i & Hi & Hid & Heq).
  rewrite Heq. split; [|done].
  eexists _, i. split; [done|]. split; [|done].
  unfold findChat. simpl. rewrite Heq. simpl.
  unfold hasId. simpl. rewrite Hid.
  by rewrite String.eqb_refl.
Qed.

(** X17. When the server confirms the [call_start] message as [K], the
    message gets the id [K] in the list of the chat, but the [lastMessage]
    of the chat keeps the temporary id: the acknowledgement of a call does
    not update it, unlike the acknowledgement of [send_message]. *)
Theorem call_ack_leaves_lastMessage_id (tempId K : string) (now : Z)
    (chatId : string) (type : CallType.t) (ack : MessageAck.t) (s : App)
    (u : User.t) (targetChat : Chat.t) :
  socket s = true -> currentUser s = Some u ->
  findChat chatId s = Some targetChat ->
  countMessages tempId (Chat.messages targetChat) = 0 ->
  MessageAck.success ack = true -> MessageAck.messageId ack = Some K ->
  K <> "" ->
  let m := callMessage tempId now u (callTypeName type) call_start in
  let s' := startCallAck chatId tempId ack
              (handleStartCall tempId now chatId type s).1 in
  exists c', findChat chatId s' = Some c'
    /\ Chat.messages c' = Chat.messages targetChat ++ [Message.with_id K m]
    /\ Chat.lastMessage c' = Some m
    /\ Message.id m = tempId.
Proof.
  intros Hsock Hu Hf H0 Hsucc HK Hne m s'. subst s'.
  unfold handleStartCall. rewrite Hsock, Hu. fold m. cbn [fst].
  destruct (callAppend_found chatId m _ _ Hf) as (i & Hi & Hid & Heq).
  unfold startCallAck, callAck. rewrite Hsucc, HK. simpl.
  apply String.eqb_neq in Hne. rewrite Hne. simpl.
  unfold findChat. simpl. rewrite Heq.
  set (c1 := Chat.with_lastMessage (Some m)
               (Chat.with_messages (Chat.messages targetChat ++ [m]) targetChat)).
  assert (Hc1 : hasId chatId c1 = true) by (by apply hasId_true).
  cbn [map List.find]. rewrite Hc1.
  set (c2 := Chat.with_messages _ c1).
  assert (Hc2 : hasId chatId c2 = true) by exact Hc1.
  rewrite Hc2. exists c2. split; [done|]. split; [|done].
  subst c2 c1. simpl. rewrite map_app. simpl.
  assert (Hm : msgHasId tempId m = true) by apply String.eqb_refl.
  rewrite Hm. f_equal.
  apply map_id_on. intros x Hx.
  pose proof (countMessages_zero _ _ _ H0 Hx) as Hx'.
  apply msgHasId_false in Hx'. by rewrite Hx'.
Qed.

(** ** Starting a direct chat *)

(** X18. [handleStartDirectChat] asks the server for a chat only with
    another user and only when the store has no chat of two participants
    with that user: with oneself nothing is sent and nothing selected, and
    when such a chat is there it is selected and nothing but the
    [mark_as_read] of the selection is sent. *)
Theorem start_direct_chat_reuses_existing (otherUserId : string) (s : App)
    (u : User.t) :
  socket s = true -> currentUser s = Some u ->
  let r := handleStartDirectChat otherUserId s in
  (otherUserId = User.id u ->
     r.2 = [] /\ chats r.1 = chats s /\ selectedChatId r.1 = selectedChatId s
     /\ emitted r.1 = emitted s)
  /\ (forall c, otherUserId <> User.id u ->
        List.find (isDirectChatWith otherUserId) (chats s) = Some c ->
        r.2 = [] /\ r.1 = setView view_chats (handleSelectChat (Chat.id c) s)
        /\ selectedChatId r.1 = Some (Chat.id c)
        /\ existsb (fun p => User.id p === otherUserId) (Chat.participants c) = true)
  /\ (r.2 <> [] ->
        r.2 = [start_direct_chat (User.id u) otherUserId]
        /\ otherUserId <> User.id u
        /\ (forall c, c ∈ chats s -> isDirectChatWith otherUserId c = false)
        /\ chats r.1 = chats s /\ selectedChatId r.1 = selectedChatId s).
Proof.
  intros Hsock Hu r. subst r. unfold handleStartDirectChat. rewrite Hsock, Hu.
  destruct (otherUserId === User.id u) eqn:He.
  - apply String.eqb_eq in He. split; [done|]. split; [|done].
    intros c Hne. done.
  - apply String.eqb_neq in He. split; [done|].
    destruct (List.find (isDirectChatWith otherUserId) (chats s)) as [c|] eqn:Hf.
    + split; [|done]. intros d _ [= <-]. split; [done|]. split; [done|].
      split.
      * unfold handleSelectChat. simpl.
        assert (Hem : forall (es : list ClientEvent) (a : App),
          selectedChatId (fold_left (fun s0 e => emit e s0) es a)
          = selectedChatId a).
        { induction es as [|e es IH]; intros a; simpl; [done|]. by rewrite IH. }
        by rewrite Hem.
      * apply List.find_some in Hf as [_ Hd]. unfold isDirectChatWith in Hd.
        by apply andb_prop in Hd as [_ Hd].
    + split; [done|]. intros _. split; [done|]. split; [done|].
      split; [|done]. intros c Hin.
      apply (List.find_none _ _ Hf). by apply list_elem_of_In.
Qed.

(** ** The groups of messages of a chat *)

Lemma insert_last {A} (l : list A) (i : nat) (x y : A) :
  S i = length l -> l !! i = Some x ->
  l = take i l ++ [x] /\ <[i := y]> l = take i l ++ [y].
Proof.
  intros Hlen Hi. split.
  - rewrite <- (take_drop_middle l i x Hi) at 1.
    by rewrite drop_ge by lia.
  - rewrite insert_take_drop by lia. by rewrite drop_ge by lia.
Qed.

(** What the loop of [groupedMessages] keeps true: the groups hold the
    messages read so far, in order; each is well grouped; and the group the
    loop refers to is the last one, with no call event in it. *)
Lemma groupStep_inv (groups : list Group.t) (cur : option nat)
    (seen : list Message.t) (m : Message.t) :
  concat (map Group.messages groups) = seen ->
  Forall wellGrouped groups ->
  (forall i, cur = Some i ->
     S i = length groups
     /\ exists g, groups !! i = Some g
          /\ Forall (fun x => isCallEvent x = false) (Group.messages g)) ->
  let st := groupStep (groups, cur) m in
  concat (map Group.messages st.1) = seen ++ [m]
  /\ Forall wellGrouped st.1
  /\ (forall i, st.2 = Some i ->
        S i = length st.1
        /\ exists g, st.1 !! i = Some g
             /\ Forall (fun x => isCallEvent x = false) (Group.messages g)).
Proof.
  intros Hcat Hwf Hcur.
  assert (Hnew : forall e : bool, isCallEvent m = e ->
    let st := (groups ++ [Group.mk (Message.sender m) [m]],
               if e then None else Some (length groups)) in
    concat (map Group.messages st.1) = seen ++ [m]
    /\ Forall wellGrouped st.1
    /\ (forall i, st.2 = Some i ->
          S i = length st.1
          /\ exists g, st.1 !! i = Some g
               /\ Forall (fun x => isCallEvent x = false) (Group.messages g))).
  { intros e He. simpl. split; [|split].
    - by rewrite map_app, concat_app, Hcat.
    - apply Forall_app. split; [done|]. constructor; [|constructor].
      split; [done|]. split; [|by repeat constructor].
      destruct e; [left; by exists m | right; by repeat constructor].
    - intros i Hi. destruct e; [done|]. injection Hi as <-.
      rewrite length_app. simpl. split; [lia|].
      eexists. split; [by apply list_lookup_middle|]. by repeat constructor. }
  unfold groupStep. destruct (isCallEvent m) eqn:Hcall.
  { exact (Hnew true eq_refl). }
  destruct cur as [i|]; [|exact (Hnew false eq_refl)].
  destruct (Hcur i eq_refl) as (Hlen & g & Hg & Hnc).
  rewrite Hg.
  destruct (User.id (Group.sender g) === User.id (Message.sender m)) eqn:Hs;
    [|exact (Hnew false eq_refl)].
  apply String.eqb_eq in Hs.
  destruct (insert_last groups i g
              (Group.mk (Group.sender g) (Group.messages g ++ [m])) Hlen Hg)
    as [Hgroups Hins].
  cbn [fst snd]. rewrite Hins.
  assert (Hwfg : wellGrouped g).
  { eapply Forall_forall in Hwf; [exact Hwf|]. by eapply list_elem_of_lookup_2. }
  split; [|split].
  - rewrite <- Hcat. rewrite Hgroups at 2.
    rewrite !map_app, !concat_app. simpl.
    by rewrite !app_nil_r, app_assoc.
  - rewrite Hgroups in Hwf. apply Forall_app in Hwf as [Hinit _].
    apply Forall_app. split; [done|]. constructor; [|constructor].
    destruct Hwfg as (_ & _ & Hsame).
    split; [by destruct (Group.messages g)|]. simpl. split.
    + right. apply Forall_app. split; [done|]. by repeat constructor.
    + apply Forall_app. split; [done|]. by repeat constructor.
  - intros j [= <-]. rewrite length_app, length_take. simpl. split; [lia|].
    eexists. split.
    + apply list_lookup_middle. rewrite length_take. lia.
    + simpl. apply Forall_app. split; [done|]. by repeat constructor.
Qed.

Lemma groupedMessages_inv (ms : list Message.t) :
  forall (groups : list Group.t) (cur : option nat) (seen : list Message.t),
  concat (map Group.messages groups) = seen ->
  Forall wellGrouped groups ->
  (forall i, cur = Some i ->
     S i = length groups
     /\ exists g, groups !! i = Some g
          /\ Forall (fun x => isCallEvent x = false) (Group.messages g)) ->
  let st := fold_left groupStep ms (groups, cur) in
  concat (map Group.messages st.1) = seen ++ ms /\ Forall wellGrouped st.1.
Proof.
  induction ms as [|m ms IH]; intros groups cur seen Hcat Hwf Hcur;
    cbn [fold_left].
  - simpl. by rewrite app_nil_r.
  - destruct (groupStep_inv groups cur seen m Hcat Hwf Hcur) as (H1 & H2 & H3).
    destruct (groupStep (groups, cur) m) as [groups' cur'] eqn:Hst.
    specialize (IH groups' cur' (seen ++ [m]) H1 H2 H3).
    cbv zeta in IH. by rewrite <- app_assoc in IH.
Qed.

(** X19. The groups [ChatInterface] shows hold the messages of the chat,
    each once and in their order; no group is empty; a call event is alone
    in its group, and the other groups hold messages of one sender, the one
    the group names. *)
Theorem groupedMessages_partition (chat : Chat.t) :
  concat (map Group.messages (groupedMessages chat)) = Chat.messages chat
  /\ Forall wellGrouped (groupedMessages chat).
Proof.
  unfold groupedMessages.
  apply (groupedMessages_inv (Chat.messages chat) [] None []); try done.
Qed.

(** ** The status icon of a message on its way *)

Lemma or_else_truthy (a : option string) (d : string) :
  d <> "" -> truthy (Some (or_else a d)) = true.
Proof.
  intros Hd. unfold truthy, or_else.
  destruct a as [x|]; [destruct (x === "") eqn:Hx|].
  - apply String.eqb_neq in Hd. by rewrite Hd.
  - by rewrite Hx.
  - apply String.eqb_neq in Hd. by rewrite Hd.
Qed.

(** X20. What the sender sees under a text message built by
    [handleSendMessage] with a [temp_] id: the clock while it is on its
    way; the double check once the success acknowledgement has renamed it;
    the alert icon once a failure acknowledgement has come, whatever the
    reason given, a missing or an empty one included. Another user sees no
    icon. *)
Theorem message_icons_follow_acks (tempId K : string) (now : Z) (u v : User.t)
    (content : string) (err : option string) :
  String.prefix "temp_" tempId = true ->
  User.id v <> User.id u ->
  let m := newMessage tempId now u content text in
  renderStatus (Some u) m = Some Clock
  /\ renderStatus (Some u) (confirmed tempId K m) = Some CheckCheck
  /\ renderStatus (Some u) (reverted tempId err m) = Some AlertCircle
  /\ renderStatus (Some v) m = None
  /\ renderStatus None m = None.
Proof.
  intros Hpre Hv m.
  assert (Hm : msgHasId tempId m = true) by apply String.eqb_refl.
  assert (Hu : (User.id u === User.id u) = true) by apply String.eqb_refl.
  assert (Hvu : (User.id u === User.id v) = false).
  { apply String.eqb_neq. congruence. }
  split; [|split; [|split; [|split]]].
  - unfold renderStatus. simpl. by rewrite Hu, Hpre.
  - unfold confirmed. rewrite Hm. unfold renderStatus. simpl. by rewrite Hu.
  - unfold reverted. rewrite Hm. unfold renderStatus.
    cbn [Message.sender Message.with_error Message.with_status m newMessage
         Message.type Message.error isCallEvent].
    rewrite Hu, or_else_truthy by done. done.
  - unfold renderStatus. simpl. by rewrite Hvu.
  - done.
Qed.

(** ** Login *)

(** X21. The user [handleLogin] makes the current one is online. He is the
    first fallback user whose name is the one typed, up to case, when there
    is one; otherwise a new user of that name, whose id [user_<time>] is the
    id of no fallback user. *)
Theorem login_user (toLowerCase : string -> string) (now : N)
    (username : string) :
  let u := handleLogin toLowerCase now username in
  User.isOnline u = true
  /\ ((exists v, v ∈ initialAvailableUsers
         /\ toLowerCase (User.name v) = toLowerCase username
         /\ u = User.with_isOnline true v)
      \/ ((forall v, v ∈ initialAvailableUsers ->
             toLowerCase (User.name v) <> toLowerCase username)
          /\ User.name u = username
          /\ User.id u = "user_" +:+ pretty now
          /\ forall v, v ∈ initialAvailableUsers -> User.id v <> User.id u)).
Proof.
  intros u. subst u. unfold handleLogin.
  destruct (List.find _ initialAvailableUsers) as [v|] eqn:Hf.
  - split; [done|]. left. apply List.find_some in Hf as [Hin Hv].
    exists v. split; [by apply list_elem_of_In|].
    split; [by apply String.eqb_eq | done].
  - split; [done|]. right. split; [|split; [done|split; [done|]]].
    + intros v Hin. apply String.eqb_neq.
      apply (List.find_none _ _ Hf). by apply list_elem_of_In.
    + intros v Hin. unfold initialAvailableUsers in Hin. simpl.
      repeat (apply elem_of_cons in Hin as [->|Hin]; [discriminate|]).
      by apply elem_of_nil in Hin.
Qed.

(** ** Doing the same thing twice *)


Lemma select_without_user (C : string) (s : App) :
  currentUser s = None ->
  chats (handleSelectChat C s) = chats s
  /\ emitted (handleSelectChat C s) = emitted s.
Proof.
  intros Hu. split.
  - rewrite chats_handleSelectChat, Hu. apply map_id_on. intros c _.
    unfold hasUnread. by rewrite andb_false_r.
  - unfold handleSelectChat, readReceipts. rewrite Hu.
    by destruct (socket s).
Qed.

(** X22. Selecting the chat that was just selected changes no chat and
    sends nothing: a chat is marked as read on the server once, by the first
    selection. This holds for every state. *)
Theorem select_twice_sends_once (C : string) (s : App) :
  let s1 := handleSelectChat C s in
  let s2 := handleSelectChat C s1 in
  chats s2 = chats s1 /\ emitted s2 = emitted s1
  /\ selectedChatId s2 = selectedChatId s1.
Proof.
  intros s1 s2.
  destruct (state_after_select C s) as (Hcu & _ & Hsel & _).
  destruct (state_after_select C s1) as (_ & _ & Hsel2 & _).
  fold s1 in Hcu, Hsel. fold s2 in Hsel2.
  assert (Hce : chats s2 = chats s1 /\ emitted s2 = emitted s1).
  { destruct (currentUser s) as [u|] eqn:Hu.
    - apply select_nothing_unread.
      intros c Hin Hid. unfold s1 in Hin.
      rewrite chats_handleSelectChat, Hu in Hin.
      apply list_elem_of_fmap in Hin as (d & Hc & _).
      apply hasId_true in Hid. revert Hid. rewrite Hc. clear Hc.
      unfold hasUnread.
      destruct (hasId C d) eqn:Hd; simpl.
      + intros _.
        destruct (Chat.unreadCount d) as [[|n]|] eqn:Hun; simpl;
          by rewrite ?Hun.
      + intros H. congruence.
    - apply select_without_user. by rewrite Hcu. }
  destruct Hce as [Hc He].
  split; [done|]. split; [done|]. by rewrite Hsel, Hsel2.
Qed.

Lemma with_status_twice (M : string) (st1 st2 : Status) (m : Message.t) :
  (if msgHasId M (if msgHasId M m then Message.with_status (Some st1) m else m)
   then Message.with_status (Some st2)
          (if msgHasId M m then Message.with_status (Some st1) m else m)
   else (if msgHasId M m then Message.with_status (Some st1) m else m))
  = (if msgHasId M m then Message.with_status (Some st2) m else m).
Proof.
  destruct (msgHasId M m) eqn:Hm.
  - change (msgHasId M (Message.with_status (Some st1) m)) with (msgHasId M m).
    by rewrite Hm.
  - by rewrite Hm.
Qed.

(** X23. Of two [message_status_update] for the same message the later one
    decides: the state is the one the later update alone gives. The same
    update delivered twice is the update delivered once. *)
Theorem last_status_update_wins (chatId messageId : string) (st1 st2 : Status)
    (s : App) :
  on_message_status_update chatId messageId st2
    (on_message_status_update chatId messageId st1 s)
  = on_message_status_update chatId messageId st2 s.
Proof.
  destruct s as [cu ch sel au v ld md sk em ts].
  unfold on_message_status_update, setChats. simpl. f_equal.
  rewrite map_map. apply map_ext. intros c.
  destruct (hasId chatId c) eqn:Hc.
  - change (hasId chatId (Chat.with_messages _ c)) with (hasId chatId c).
    rewrite Hc. unfold Chat.with_messages. simpl. f_equal.
    rewrite map_map. apply map_ext. intros m. apply with_status_twice.
  - by rewrite Hc.
Qed.

(** X24. An acknowledgement of [send_message], success or failure, adds and
    removes nothing: the chats keep their ids and their order, and each has
    as many messages as before, the participants and the count of unread
    messages it had. *)
Theorem ack_keeps_shape (chatId tempId : string) (ack : MessageAck.t) (s : App) :
  let s' := sendMessageAck chatId tempId ack s in
  map Chat.id (chats s') = map Chat.id (chats s)
  /\ map (fun c => length (Chat.messages c)) (chats s')
     = map (fun c => length (Chat.messages c)) (chats s)
  /\ map Chat.unreadCount (chats s') = map Chat.unreadCount (chats s)
  /\ map Chat.participants (chats s') = map Chat.participants (chats s)
  /\ selectedChatId s' = selectedChatId s /\ emitted s' = emitted s.
Proof.
  intros s'. subst s'. unfold sendMessageAck.
  destruct (MessageAck.success ack && truthy (MessageAck.messageId ack));
    simpl; rewrite !map_map;
    repeat split; try done; apply map_ext; intros c;
    destruct (hasId chatId c); try done; simpl; apply length_map.
Qed.

(** X25. Once [direct_chat_started] has brought the chat with another user,
    asking for a chat with that user again sends nothing to the server: the
    chat of the reply is found in the store and selected, and stays at
    index 0 with the messages it came with. *)
Theorem direct_chat_reply_is_reused (otherUserId : string) (newChat : Chat.t)
    (s : App) (u : User.t) :
  socket s = true -> currentUser s = Some u ->
  otherUserId <> User.id u ->
  isDirectChatWith otherUserId newChat = true ->
  let s1 := on_direct_chat_started newChat s in
  let r := handleStartDirectChat otherUserId s1 in
  r.2 = [] /\ selectedChatId r.1 = Some (Chat.id newChat)
  /\ exists c, chats r.1 !! 0 = Some c /\ Chat.id c = Chat.id newChat
       /\ Chat.messages c = Chat.messages newChat
       /\ Chat.participants c = Chat.participants newChat.
Proof.
  intros Hsock Hu Hne Hd s1 r.
  assert (Hs1 : socket s1 = true /\ currentUser s1 = Some u
                /\ List.find (isDirectChatWith otherUserId) (chats s1)
                   = Some newChat).
  { subst s1. simpl. rewrite putFirst_cons. simpl. by rewrite Hd. }
  destruct Hs1 as (Hsock1 & Hu1 & Hf1).
  assert (Hr : r = (setView view_chats (handleSelectChat (Chat.id newChat) s1), [])).
  { subst r. unfold handleStartDirectChat. rewrite Hsock1, Hu1, Hf1.
    apply String.eqb_neq in Hne. by rewrite Hne. }
  rewrite Hr. cbn [fst snd]. split; [done|].
  destruct (state_after_select (Chat.id newChat) s1) as (_ & _ & Hsel & _).
  split; [exact Hsel|].
  change (chats (setView view_chats (handleSelectChat (Chat.id newChat) s1)))
    with (chats (handleSelectChat (Chat.id newChat) s1)).
  rewrite chats_handleSelectChat.
  assert (Hc1 : chats s1 = putFirst newChat (chats s)) by done.
  rewrite Hc1, putFirst_cons. simpl.
  eexists. split; [done|].
  by destruct (hasUnread _ _ newChat).
Qed.

(** ** The further properties on the session [Scenario] *)

Lemma receive_unknown_chat_requests_refresh_witness :
  let s' := on_receive_message Scenario.alice Scenario.broadcast "c9"
              Scenario.app in
  findChat "c9" Scenario.app = None
  /\ chats s' = chats Scenario.app
  /\ emitted s' = emitted Scenario.app ++ [request_initial_data].
Proof.
  intros s'.
  destruct (receive_unknown_chat_requests_refresh Scenario.alice
              Scenario.broadcast "c9" Scenario.app eq_refl) as (Hc & _ & He).
  split; [reflexivity|]. split; [exact Hc | exact He].
Defined.

Lemma receive_message_moves_to_front_witness :
  let s' := on_receive_message Scenario.alice Scenario.broadcast "c3"
              Scenario.app in
  findChat "c3" Scenario.app = Some Scenario.c3
  /\ (Chat.id <$> chats s' !! 0) = Some "c3"
  /\ (Chat.unreadCount <$> chats s' !! 0) = Some (Some 4)
  /\ List.filter (fun d => negb (hasId "c3" d)) (chats s')
     = [Scenario.c2; Scenario.c1].
Proof.
  intros s'.
  destruct (receive_message_moves_to_front Scenario.alice Scenario.broadcast
              "c3" Scenario.app Scenario.c3 eq_refl) as (H0 & _ & Hf & _).
  fold s' in H0. split; [reflexivity|]. split; [|split].
  - rewrite H0. reflexivity.
  - rewrite H0. reflexivity.
  - exact Hf.
Defined.

Lemma receive_counts_unread_whatever_is_selected_witness :
  let s' := on_receive_message Scenario.alice Scenario.broadcast "c2"
              Scenario.app in
  findChat "c2" Scenario.app = Some Scenario.c2
  /\ selectedChatId Scenario.app = Some "c2"
  /\ Chat.unreadCount Scenario.c2 = Some 0
  /\ (exists c', findChat "c2" s' = Some c' /\ Chat.unreadCount c' = Some 1)
  /\ emitted s' = emitted Scenario.app.
Proof.
  intros s'.
  destruct (receive_counts_unread_whatever_is_selected Scenario.alice
              Scenario.broadcast "c2" Scenario.app Scenario.c2
              eq_refl eq_refl)
    as ((c' & Hf & _ & _ & Hu) & He & _).
  split; [reflexivity|]. split; [reflexivity|]. split; [reflexivity|].
  split; [exists c'; split; assumption | exact He].
Defined.

Lemma send_into_unknown_chat_still_emits_witness :
  let s' := handleSendMessage Scenario.tempId 2000 "c9" "hi" text Scenario.app in
  findChat "c9" Scenario.app = None
  /\ chats s' = chats Scenario.app
  /\ emitted s'
     = [send_message "c9" (newMessage Scenario.tempId 2000 Scenario.alice "hi" text)].
Proof.
  intros s'.
  destruct (send_into_unknown_chat_still_emits Scenario.tempId 2000 "c9" "hi"
              text Scenario.app Scenario.alice eq_refl eq_refl eq_refl)
    as (Hc & He & _).
  split; [reflexivity|]. split; [exact Hc | exact He].
Defined.

Lemma stale_ack_changes_no_chat_witness :
  let s := on_initial_data Scenario.alice Scenario.snapshot
             (on_disconnect "transport close" Scenario.sending) in
  findMessage "c1" Scenario.tempId Scenario.sending <> None
  /\ chats (sendMessageAck "c1" Scenario.tempId Scenario.ackOk s) = chats s.
Proof.
  intros s. split; [discriminate|].
  apply stale_ack_changes_no_chat.
  intros c Hin Hid.
  change (chats s) with [Scenario.c2; Scenario.c1] in Hin.
  apply elem_of_cons in Hin as [->|Hin]; [discriminate Hid|].
  apply elem_of_cons in Hin as [->|Hin].
  - split; [reflexivity | intros lm H; discriminate H].
  - apply elem_of_nil in Hin. destruct Hin.
Defined.

Lemma status_update_unknown_is_noop_witness :
  countMessages "m42" (Chat.messages Scenario.c2) = 0
  /\ on_message_status_update "c2" "m42" read Scenario.app = Scenario.app.
Proof.
  split; [reflexivity|].
  apply status_update_unknown_is_noop.
  intros c Hin Hid.
  change (chats Scenario.app) with [Scenario.c2; Scenario.c1; Scenario.c3] in Hin.
  apply elem_of_cons in Hin as [->|Hin]; [reflexivity|].
  apply elem_of_cons in Hin as [->|Hin]; [discriminate Hid|].
  apply elem_of_cons in Hin as [->|Hin]; [discriminate Hid|].
  apply elem_of_nil in Hin. destruct Hin.
Defined.

Lemma status_update_leaves_lastMessage_witness :
  let s' := on_message_status_update "c2" "m1" delivered Scenario.app in
  chats Scenario.app !! 0 = Some Scenario.c2
  /\ exists c', chats s' !! 0 = Some c'
       /\ Chat.messages c' !! 0
          = Some (Message.with_status (Some delivered) Scenario.hello)
       /\ (Message.status <$> Chat.lastMessage c') = Some (Some read).
Proof.
  intros s'.
  destruct (status_update_leaves_lastMessage "c2" "m1" delivered Scenario.app
              0 Scenario.c2 eq_refl) as (c' & H0 & _ & _ & _ & Hm).
  split; [reflexivity|]. exists c'. split; [exact H0|].
  exact (Hm eq_refl 0 Scenario.hello eq_refl eq_refl eq_refl).
Defined.

Lemma reconnect_selects_most_recent_witness :
  let s' := on_initial_data Scenario.alice Scenario.snapshot
              (on_disconnect "transport close" Scenario.app) in
  "transport close" <> "io client disconnect"
  /\ InitialData.chats Scenario.snapshot <> []
  /\ exists c, chats s' !! 0 = Some c
       /\ selectedChatId s' = Some (Chat.id c)
       /\ forall d, d ∈ InitialData.chats Scenario.snapshot ->
            (recency d <= recency c)%Z.
Proof.
  intros s'.
  assert (Hr : "transport close" <> "io client disconnect") by discriminate.
  assert (Hne : InitialData.chats Scenario.snapshot <> []) by discriminate.
  destruct (reconnect_selects_most_recent Scenario.alice "transport close"
              Scenario.snapshot Scenario.app Hr Hne)
    as (c & H0 & Hsel & _ & Hmax).
  split; [exact Hr|]. split; [exact Hne|].
  exists c. split; [exact H0|]. split; [exact Hsel | exact Hmax].
Defined.

Lemma chat_ids_stay_distinct_witness :
  Forall distinctPayload Replay.events
  /\ NoDup (chatIds Scenario.app)
  /\ NoDup (chatIds (run Scenario.alice Replay.events Scenario.app)).
Proof.
  assert (Hpay : Forall distinctPayload Replay.events).
  { unfold Replay.events.
    repeat (apply Forall_cons; split; [try exact I|]).
    - cbn [distinctPayload].
      apply (bool_decide_unpack _). vm_compute. exact I.
    - constructor. }
  assert (Hnd : NoDup (chatIds Scenario.app)).
  { apply (bool_decide_unpack _). vm_compute. exact I. }
  split; [exact Hpay|]. split; [exact Hnd|].
  exact (chat_ids_stay_distinct Scenario.alice Replay.events Scenario.app
           Hpay Hnd).
Defined.

Lemma select_clears_badge_witness :
  let s' := handleSelectChat "c3" Scenario.app in
  currentUser Scenario.app = Some Scenario.alice
  /\ unreadBadge Scenario.c3 = Some "3"
  /\ (forall c, c ∈ chats s' -> Chat.id c = "c3" -> unreadBadge c = None)
  /\ selectedChatId s' = Some "c3".
Proof.
  intros s'.
  destruct (select_clears_badge "c3" Scenario.app Scenario.alice eq_refl)
    as (Hb & _ & _ & Hsel).
  split; [reflexivity|]. split; [reflexivity|].
  split; [exact Hb | exact Hsel].
Defined.

Lemma start_call_keeps_unread_witness :
  let r := handleStartCall Replay.callId 4000 "c3" CallType.video Scenario.app in
  findChat "c3" Scenario.app = Some Scenario.c3
  /\ (exists c', chats r.1 !! 0 = Some c'
        /\ Chat.unreadCount c' = Some 3
        /\ (Message.content <$> Chat.lastMessage c') = Some "video")
  /\ r.2 = [start_call "c3"
              (callMessage Replay.callId 4000 Scenario.alice "video" call_start)].
Proof.
  intros r.
  destruct (start_call_keeps_unread Replay.callId 4000 "c3" CallType.video
              Scenario.app Scenario.alice Scenario.c3 eq_refl eq_refl eq_refl)
    as ((c' & i & H0 & _ & _ & Hl & Hu & _) & _ & _ & Hr & _).
  split; [reflexivity|]. split; [|exact Hr].
  exists c'. split; [exact H0|]. split; [exact Hu|].
  fold r in Hl. rewrite Hl. reflexivity.
Defined.

Lemma call_ack_leaves_lastMessage_id_witness :
  let s' := startCallAck "c3" Replay.callId Replay.callAckOk
              (handleStartCall Replay.callId 4000 "c3" CallType.video
                 Scenario.app).1 in
  "m77" <> ""
  /\ exists c', findChat "c3" s' = Some c'
       /\ (Message.id <$> Chat.messages c') = ["m77"]
       /\ (Message.id <$> Chat.lastMessage c') = Some Replay.callId.
Proof.
  intros s'.
  assert (Hne : "m77" <> "") by discriminate.
  destruct (call_ack_leaves_lastMessage_id Replay.callId "m77" 4000 "c3"
              CallType.video Replay.callAckOk Scenario.app Scenario.alice
              Scenario.c3 eq_refl eq_refl eq_refl eq_refl eq_refl eq_refl Hne)
    as (c' & Hf & Hm & Hl & _).
  split; [exact Hne|]. exists c'. split; [exact Hf|].
  split; [rewrite Hm | rewrite Hl]; reflexivity.
Defined.

Lemma start_direct_chat_reuses_existing_witness :
  let r := handleStartDirectChat "user2" Scenario.app in
  socket Scenario.app = true
  /\ List.find (isDirectChatWith "user2") (chats Scenario.app) = Some Scenario.c2
  /\ r.2 = [] /\ selectedChatId r.1 = Some "c2".
Proof.
  intros r.
  destruct (start_direct_chat_reuses_existing "user2" Scenario.app
              Scenario.alice eq_refl eq_refl) as (_ & Hex & _).
  assert (Hne : "user2" <> User.id Scenario.alice) by discriminate.
  destruct (Hex Scenario.c2 Hne eq_refl) as (Hr & _ & Hsel & _).
  split; [reflexivity|]. split; [reflexivity|].
  split; [exact Hr | exact Hsel].
Defined.

Lemma message_icons_follow_acks_witness :
  let m := newMessage Scenario.tempId 2000 Scenario.alice "hi" text in
  String.prefix "temp_" Scenario.tempId = true
  /\ renderStatus (Some Scenario.alice) m = Some Clock
  /\ renderStatus (Some Scenario.alice) (confirmed Scenario.tempId "m42" m)
     = Some CheckCheck
  /\ renderStatus (Some Scenario.alice) (reverted Scenario.tempId (Some "") m)
     = Some AlertCircle
  /\ renderStatus (Some Scenario.bob) m = None.
Proof.
  intros m.
  assert (Hne : User.id Scenario.bob <> User.id Scenario.alice) by discriminate.
  destruct (message_icons_follow_acks Scenario.tempId "m42" 2000 Scenario.alice
              Scenario.bob "hi" (Some "") eq_refl Hne)
    as (H1 & H2 & H3 & H4 & _).
  split; [reflexivity|]. repeat split; assumption.
Defined.

Lemma direct_chat_reply_is_reused_witness :
  let s1 := on_direct_chat_started Scenario.c1_server Scenario.app in
  let r := handleStartDirectChat "user2" s1 in
  isDirectChatWith "user2" Scenario.c1_server = true
  /\ r.2 = [] /\ selectedChatId r.1 = Some "c1".
Proof.
  intros s1 r.
  assert (Hne : "user2" <> User.id Scenario.alice) by discriminate.
  destruct (direct_chat_reply_is_reused "user2" Scenario.c1_server Scenario.app
              Scenario.alice eq_refl eq_refl Hne eq_refl) as (Hr & Hsel & _).
  split; [reflexivity|]. split; [exact Hr | exact Hsel].
Defined.
